(** * Sistema de invitados: a shallow embedding of [sistema_de_invitados_app.jsx]

    The development follows the source file top to bottom: the JavaScript
    string and JSON primitives the program calls, the invitee record, the
    browser storage, the session gate, the dashboard operations and the
    scanner; then the properties, one section per operation.

    What the model covers.  Every operation is embedded on its
    local-storage path, the one taken whenever [supabaseClient] is
    [null]; the remote branch is a call into an external service and is
    not part of the model.  Writes to browser storage are taken to
    succeed.  The collection under [LOCAL_KEY] is held as the array it
    parses to.  The two sources of chance and time are arguments: the
    text of [Math.random().toString(36)] for [uid], the text of
    [new Date().toISOString()] for the entry date.  The builtin
    [toLowerCase] is a member of the class [Engine], and the search is
    embedded and proved for every engine.  React state is a record per
    page, and a handler is a function from the browser and the page's
    state to the new ones. *)

From Stdlib Require Import List NArith ZArith Bool Lia String Ascii.
Import ListNotations.

Set Warnings "-register-all".

(* ================================================================== *)
(** ** JavaScript strings *)
(* ================================================================== *)

(** A JavaScript string is a sequence of UTF-16 code units. *)
Definition jsstring := list N.

(** [js] reads an ASCII literal as a JavaScript string. *)
Definition js (s : string) : jsstring :=
  map N_of_ascii (list_ascii_of_string s).

(** [jsq] is [js] for JSON texts: the literal writes every double quote
    (code unit 34) as an apostrophe (code unit 39). *)
Definition jsq (s : string) : jsstring :=
  map (fun c => if N.eqb c 39 then 34%N else c) (js s).

(** [a === b] on two strings. *)
Fixpoint str_eqb (a b : jsstring) : bool :=
  match a, b with
  | [], [] => true
  | x :: a', y :: b' => N.eqb x y && str_eqb a' b'
  | _, _ => false
  end.

(** ToBoolean on a string: only the empty string is falsy. *)
Definition truthy_str (s : jsstring) : bool :=
  match s with [] => false | _ :: _ => true end.

(** [a || b] on two strings. *)
Definition str_or (a b : jsstring) : jsstring :=
  if truthy_str a then a else b.

Fixpoint starts_with (p s : jsstring) : bool :=
  match p, s with
  | [], _ => true
  | x :: p', y :: s' => N.eqb x y && starts_with p' s'
  | _ :: _, [] => false
  end.

(** [s.includes(p)]. *)
Fixpoint includes (s p : jsstring) : bool :=
  starts_with p s ||
  match s with
  | [] => false
  | _ :: s' => includes s' p
  end.

(** [s.slice(b, e)] for [0 <= b <= e]; both indices clamp to the length. *)
Definition slice (b e : nat) (s : jsstring) : jsstring :=
  firstn (e - b) (skipn b s).

(** WhiteSpace and LineTerminator code units, the ones [trim] strips. *)
Definition is_js_space (c : N) : bool :=
  existsb (N.eqb c)
    [9; 10; 11; 12; 13; 32; 160; 5760; 8232; 8233; 8239; 8287; 12288; 65279]%N
  || (N.leb 8192 c && N.leb c 8202).

Fixpoint trim_start (s : jsstring) : jsstring :=
  match s with
  | [] => []
  | c :: s' => if is_js_space c then trim_start s' else s
  end.

(** [s.trim()]. *)
Definition trim (s : jsstring) : jsstring :=
  rev (trim_start (rev (trim_start s))).

(** The lower-case mapping of the Unicode standard on a code unit below
    256: the capitals of Basic Latin (A-Z) and of the Latin-1 Supplement
    (U+00C0-U+00DE but the multiplication sign U+00D7) go to their small
    letters, 32 above, and the other units below 256 stay. *)
Definition latin1_lower (c : N) : N :=
  if (N.leb 65 c && N.leb c 90)
     || (N.leb 192 c && N.leb c 222 && negb (N.eqb c 215))
  then (c + 32)%N else c.

(** [s.toLowerCase()] is a builtin of the engine that runs the program,
    and what it returns outside Latin-1 depends on the Unicode tables the
    engine ships.  The development holds for every engine: all it takes
    of the builtin is its action on a text whose units are all below 256,
    which is [latin1_lower] unit by unit in every version of the
    standard (no unit below 256 has a mapping that depends on its
    context or that changes the length). *)
Class Engine := {
  toLowerCase : jsstring -> jsstring;
  toLowerCase_latin1 :
    forall s, forallb (fun c => N.ltb c 256) s = true ->
              toLowerCase s = map latin1_lower s
}.

(** The engine of the examples, which are Latin-1 texts: it maps the
    units below 256 as every engine does.  It leaves the other units as
    they are, which an engine does not: the theorems are stated for
    every engine, and the examples alone use this one. *)
Definition latin1_engine : Engine :=
  {| toLowerCase := map latin1_lower;
     toLowerCase_latin1 := fun s _ => eq_refl |}.

(* ================================================================== *)
(** ** JSON *)
(* ================================================================== *)

(** A number read by [JSON.parse], kept as the parts of its literal. *)
Record numlit := {
  num_neg : bool;
  num_int : list N;      (* digit values, most significant first *)
  num_frac : list N;
  num_exp_neg : bool;
  num_exp : list N
}.

Inductive json :=
| JNull
| JBool (b : bool)
| JNum (n : numlit)
| JStr (s : jsstring)
| JArr (elems : list json)
| JObj (members : list (jsstring * json)).

Inductive token :=
| TLBrace | TRBrace | TLBrack | TRBrack | TColon | TComma
| TString (s : jsstring)
| TValue (v : json).  (* a number or one of true, false, null *)

Definition is_json_ws (c : N) : bool :=
  existsb (N.eqb c) [32; 9; 10; 13]%N.

Definition is_digit (c : N) : bool := N.leb 48 c && N.leb c 57.

Definition is_alpha (c : N) : bool :=
  (N.leb 97 c && N.leb c 122) || (N.leb 65 c && N.leb c 90).

(** Code units that can stand in a number or in a literal name. *)
Definition is_word (c : N) : bool :=
  is_digit c || is_alpha c || existsb (N.eqb c) [43; 45; 46]%N.

Definition hex_val (c : N) : option N :=
  if is_digit c then Some (c - 48)%N
  else if N.leb 97 c && N.leb c 102 then Some (c - 87)%N
  else if N.leb 65 c && N.leb c 70 then Some (c - 55)%N
  else None.

Fixpoint span_digits (s : list N) : list N * list N :=
  match s with
  | c :: s' =>
      if is_digit c
      then let '(ds, rest) := span_digits s' in ((c - 48)%N :: ds, rest)
      else ([], s)
  | [] => ([], [])
  end.

(** The number grammar: an optional minus sign; an integer part that is
    a single 0 or starts with a digit from 1 to 9; an optional fraction, a
    dot and at least one digit; an optional exponent, e or E, an optional
    sign and at least one digit. *)
Definition parse_number (w : list N) : option numlit :=
  let '(neg, w1) :=
    match w with 45%N :: w' => (true, w') | _ => (false, w) end in
  let '(ip, w2) := span_digits w1 in
  match ip with
  | [] => None
  | d :: ds =>
      if N.eqb d 0 && negb (match ds with [] => true | _ => false end)
      then None
      else
        let frac :=
          match w2 with
          | 46%N :: w' =>
              let '(fp, w3) := span_digits w' in
              match fp with [] => None | _ => Some (fp, w3) end
          | _ => Some ([], w2)
          end in
        match frac with
        | None => None
        | Some (fp, w3) =>
            match w3 with
            | [] => Some (Build_numlit neg ip fp false [])
            | c :: w4 =>
                if N.eqb c 101 || N.eqb c 69 then
                  let '(eneg, w5) :=
                    match w4 with
                    | 45%N :: w' => (true, w')
                    | 43%N :: w' => (false, w')
                    | _ => (false, w4)
                    end in
                  let '(ep, w6) := span_digits w5 in
                  match ep, w6 with
                  | _ :: _, [] => Some (Build_numlit neg ip fp eneg ep)
                  | _, _ => None
                  end
                else None
            end
        end
  end.

(** A maximal run of word units is a literal name or a number. *)
Definition classify_word (w : list N) : option json :=
  if str_eqb w (js "true") then Some (JBool true)
  else if str_eqb w (js "false") then Some (JBool false)
  else if str_eqb w (js "null") then Some JNull
  else option_map JNum (parse_number w).

(** The lexer is a finite automaton over code units.  The accumulators
    hold what was read so far, last unit first. *)
Inductive lexstate :=
| LDefault
| LWord (acc : list N)
| LStr (acc : list N)
| LEsc (acc : list N)
| LHex (acc : list N) (digits : list N).

Definition lex_default (c : N) : option (list token * lexstate) :=
  if is_json_ws c then Some ([], LDefault)
  else if N.eqb c 123 then Some ([TLBrace], LDefault)
  else if N.eqb c 125 then Some ([TRBrace], LDefault)
  else if N.eqb c 91 then Some ([TLBrack], LDefault)
  else if N.eqb c 93 then Some ([TRBrack], LDefault)
  else if N.eqb c 58 then Some ([TColon], LDefault)
  else if N.eqb c 44 then Some ([TComma], LDefault)
  else if N.eqb c 34 then Some ([], LStr [])
  else if is_word c then Some ([], LWord [c])
  else None.

Definition unescape (c : N) : option N :=
  if N.eqb c 34 then Some 34%N          (* escaped quote *)
  else if N.eqb c 92 then Some 92%N     (* escaped backslash *)
  else if N.eqb c 47 then Some 47%N     (* escaped solidus *)
  else if N.eqb c 98 then Some 8%N      (* \b *)
  else if N.eqb c 102 then Some 12%N    (* \f *)
  else if N.eqb c 110 then Some 10%N    (* \n *)
  else if N.eqb c 114 then Some 13%N    (* \r *)
  else if N.eqb c 116 then Some 9%N     (* \t *)
  else None.

Definition lex_step (st : lexstate) (c : N)
  : option (list token * lexstate) :=
  match st with
  | LDefault => lex_default c
  | LWord acc =>
      if is_word c then Some ([], LWord (c :: acc))
      else
        match classify_word (rev acc), lex_default c with
        | Some v, Some (toks, st') => Some (TValue v :: toks, st')
        | _, _ => None
        end
  | LStr acc =>
      if N.eqb c 34 then Some ([TString (rev acc)], LDefault)
      else if N.eqb c 92 then Some ([], LEsc acc)
      else if N.ltb c 32 then None
      else Some ([], LStr (c :: acc))
  | LEsc acc =>
      if N.eqb c 117 then Some ([], LHex acc [])
      else
        match unescape c with
        | Some u => Some ([], LStr (u :: acc))
        | None => None
        end
  | LHex acc ds =>
      match hex_val c, ds with
      | Some h0, [h1; h2; h3] =>
          Some ([], LStr ((4096 * h3 + 256 * h2 + 16 * h1 + h0)%N :: acc))
      | Some h, _ => Some ([], LHex acc (h :: ds))
      | None, _ => None
      end
  end.

Definition lex_finish (st : lexstate) : option (list token) :=
  match st with
  | LDefault => Some []
  | LWord acc => option_map (fun v => [TValue v]) (classify_word (rev acc))
  | LStr _ | LEsc _ | LHex _ _ => None
  end.

Fixpoint lex (st : lexstate) (s : jsstring) : option (list token) :=
  match s with
  | [] => lex_finish st
  | c :: s' =>
      match lex_step st c with
      | Some (toks, st') => option_map (app toks) (lex st' s')
      | None => None
      end
  end.

(** The parser is a pushdown automaton over tokens.  A frame is an open
    array or an open object waiting for the value of [key]; elements and
    members are held last first. *)
Inductive frame :=
| FArr (elems : list json)
| FObj (members : list (jsstring * json)) (key : jsstring).

Inductive pstate :=
| PValue (stk : list frame)
| PArrStart (stk : list frame)
| PArrNext (elems : list json) (stk : list frame)
| PObjStart (stk : list frame)
| PObjKey (members : list (jsstring * json)) (stk : list frame)
| PObjColon (members : list (jsstring * json)) (key : jsstring)
            (stk : list frame)
| PObjNext (members : list (jsstring * json)) (stk : list frame)
| PDone (v : json).

(** A finished value goes to the innermost open container. *)
Definition deliver (v : json) (stk : list frame) : pstate :=
  match stk with
  | [] => PDone v
  | FArr es :: stk' => PArrNext (v :: es) stk'
  | FObj ms k :: stk' => PObjNext ((k, v) :: ms) stk'
  end.

Definition begin_value (stk : list frame) (t : token) : option pstate :=
  match t with
  | TString s => Some (deliver (JStr s) stk)
  | TValue v => Some (deliver v stk)
  | TLBrack => Some (PArrStart stk)
  | TLBrace => Some (PObjStart stk)
  | _ => None
  end.

Definition parse_step (st : pstate) (t : token) : option pstate :=
  match st, t with
  | PValue stk, _ => begin_value stk t
  | PArrStart stk, TRBrack => Some (deliver (JArr []) stk)
  | PArrStart stk, _ => begin_value (FArr [] :: stk) t
  | PArrNext es stk, TComma => Some (PValue (FArr es :: stk))
  | PArrNext es stk, TRBrack => Some (deliver (JArr (rev es)) stk)
  | PObjStart stk, TRBrace => Some (deliver (JObj []) stk)
  | PObjStart stk, TString k => Some (PObjColon [] k stk)
  | PObjKey ms stk, TString k => Some (PObjColon ms k stk)
  | PObjColon ms k stk, TColon => Some (PValue (FObj ms k :: stk))
  | PObjNext ms stk, TComma => Some (PObjKey ms stk)
  | PObjNext ms stk, TRBrace => Some (deliver (JObj (rev ms)) stk)
  | _, _ => None
  end.

Fixpoint parse_tokens (st : pstate) (ts : list token) : option json :=
  match ts with
  | [] => match st with PDone v => Some v | _ => None end
  | t :: ts' =>
      match parse_step st t with
      | Some st' => parse_tokens st' ts'
      | None => None
      end
  end.

(** [JSON.parse(s)]; [None] stands for the SyntaxError it throws. *)
Definition JSON_parse (s : jsstring) : option json :=
  match lex LDefault s with
  | Some ts => parse_tokens (PValue []) ts
  | None => None
  end.


(** ToBoolean on a parsed number: the double nearest to the literal is
    zero when its digits are all zero, or when its value, the integer
    [m] scaled by [10^e], is at most [2^-1075], half the least positive
    double. *)
Definition digits_val (ds : list N) : N :=
  fold_left (fun a d => 10 * a + d)%N ds 0%N.

Definition num_is_zero (n : numlit) : bool :=
  let m := Z.of_N (digits_val (num_int n ++ num_frac n)) in
  let x := Z.of_N (digits_val (num_exp n)) in
  let e := ((if num_exp_neg n then - x else x)
            - Z.of_nat (List.length (num_frac n)))%Z in
  if Z.eqb m 0 then true
  else if Z.leb 0 e then false
  else Z.leb (m * 2 ^ 1075) (10 ^ (- e)).

(** ToBoolean on a parsed value. *)
Definition truthy (v : json) : bool :=
  match v with
  | JNull => false
  | JBool b => b
  | JNum n => negb (num_is_zero n)
  | JStr s => truthy_str s
  | JArr _ | JObj _ => true
  end.

(** ToBoolean on the result of a property read; [None] is [undefined]. *)
Definition truthy_opt (o : option json) : bool :=
  match o with Some v => truthy v | None => false end.

(** [v.k] for a key that no built-in prototype defines, such as [id]: an
    object gives its member, the last one when the text repeated the key;
    every other value gives [undefined]. *)
Definition get_prop (v : json) (k : jsstring) : option json :=
  match v with
  | JObj ms =>
      option_map snd (find (fun kv => str_eqb (fst kv) k) (rev ms))
  | _ => None
  end.

(** [s === v] for a string [s] and a parsed value [v]. *)
Definition strict_eq (s : jsstring) (v : json) : bool :=
  match v with JStr t => str_eqb s t | _ => false end.

(** *** JSON.stringify, for strings and objects of strings *)

Definition hex_digit (h : N) : N :=
  if N.ltb h 10 then (48 + h)%N else (87 + h)%N.

(** UnicodeEscape: backslash, u and four lower-case hexadecimal digits. *)
Definition unicode_escape (c : N) : jsstring :=
  [92; 117;
   hex_digit ((c / 4096) mod 16); hex_digit ((c / 256) mod 16);
   hex_digit ((c / 16) mod 16); hex_digit (c mod 16)]%N.

Definition is_high_surrogate (c : N) : bool := N.leb 55296 c && N.leb c 56319.
Definition is_low_surrogate (c : N) : bool := N.leb 56320 c && N.leb c 57343.

Definition escape_unit (c : N) : jsstring :=
  if N.eqb c 8 then [92; 98]%N
  else if N.eqb c 9 then [92; 116]%N
  else if N.eqb c 10 then [92; 110]%N
  else if N.eqb c 12 then [92; 102]%N
  else if N.eqb c 13 then [92; 114]%N
  else if N.eqb c 34 then [92; 34]%N
  else if N.eqb c 92 then [92; 92]%N
  else if N.ltb c 32 then unicode_escape c
  else [c].

(** The body of QuoteJSONString: a surrogate pair is copied, a lone
    surrogate is escaped. *)
Fixpoint quote_units (s : jsstring) : jsstring :=
  match s with
  | [] => []
  | c :: s' =>
      if is_high_surrogate c then
        match s' with
        | d :: s'' =>
            if is_low_surrogate d then c :: d :: quote_units s''
            else unicode_escape c ++ quote_units s'
        | [] => unicode_escape c
        end
      else if is_low_surrogate c then unicode_escape c ++ quote_units s'
      else escape_unit c ++ quote_units s'
  end.

Definition QuoteJSONString (s : jsstring) : jsstring :=
  34%N :: quote_units s ++ [34%N].

Fixpoint stringify_members (ms : list (jsstring * jsstring)) : jsstring :=
  match ms with
  | [] => []
  | [(k, v)] => QuoteJSONString k ++ 58%N :: QuoteJSONString v
  | (k, v) :: ms' =>
      QuoteJSONString k ++ 58%N :: QuoteJSONString v
      ++ 44%N :: stringify_members ms'
  end.

(** [JSON.stringify(o)] for an object [o] whose properties are strings. *)
Definition JSON_stringify (o : list (jsstring * jsstring)) : jsstring :=
  123%N :: stringify_members o ++ [125%N].

(* ================================================================== *)
(** ** The invitee record and the browser *)
(* ================================================================== *)

Inductive tipo := INVITADO | PROMOCIONADO.

(** [fecha_ingreso] is [null] or the ISO text of a date.  [qr_code] and
    [dni] are strings, empty when there is none. *)
Record Invitado := {
  id : jsstring;
  nombre_completo : jsstring;
  tipo_invitado : tipo;
  qr_code : jsstring;
  ingresado : bool;
  fecha_ingreso : option jsstring;
  dni : jsstring
}.

Inductive route := RLogin | RDashboard | RScanner | RTarjetas.

(** The browser: the entry of localStorage under [LOCAL_KEY], held as the
    array it parses to; the entry of sessionStorage under [admin_user];
    the current route. *)
Record Browser := {
  localStorage : option (list Invitado);
  sessionStorage : option jsstring;
  location : route
}.

Definition ADMIN_USER : jsstring := js "jesusandia124".
Definition ADMIN_PASS : jsstring := js "andia124".

(** [uid()]; [rnd36] is the text [Math.random().toString(36)]. *)
Definition uid (rnd36 : jsstring) : jsstring :=
  js "id_" ++ slice 2 9 rnd36.

Definition loadLocal (b : Browser) : list Invitado :=
  match localStorage b with
  | Some arr => arr
  | None => []
  end.

Definition saveLocal (arr : list Invitado) (b : Browser) : Browser :=
  {| localStorage := Some arr;
     sessionStorage := sessionStorage b;
     location := location b |}.

Definition navigate (r : route) (b : Browser) : Browser :=
  {| localStorage := localStorage b;
     sessionStorage := sessionStorage b;
     location := r |}.

Definition set_session (v : option jsstring) (b : Browser) : Browser :=
  {| localStorage := localStorage b;
     sessionStorage := v;
     location := location b |}.

(** Jesús Andres Andía Zambrano *)
Definition NOMBRE_1 : jsstring :=
  js "Jes" ++ [250%N] ++ js "s Andres And" ++ [237%N] ++ js "a Zambrano".

Definition NOMBRE_2 : jsstring := js "Andres Sanchez Valentin".

Definition sample (rnd1 rnd2 : jsstring) : list Invitado :=
  [ {| id := uid rnd1; nombre_completo := NOMBRE_1;
       tipo_invitado := PROMOCIONADO; qr_code := [];
       ingresado := false; fecha_ingreso := None; dni := js "00000001" |};
    {| id := uid rnd2; nombre_completo := NOMBRE_2;
       tipo_invitado := INVITADO; qr_code := [];
       ingresado := false; fecha_ingreso := None; dni := js "00000002" |} ].

(** The seeding done when the module loads: an empty collection is
    replaced by the two sample records. *)
Definition seed (rnd1 rnd2 : jsstring) (b : Browser) : Browser :=
  if Nat.eqb (List.length (loadLocal b)) 0
  then saveLocal (sample rnd1 rnd2) b
  else b.

(** [{ ...item, qr_code: payload }] *)
Definition with_qr_code (payload : jsstring) (item : Invitado) : Invitado :=
  {| id := id item; nombre_completo := nombre_completo item;
     tipo_invitado := tipo_invitado item; qr_code := payload;
     ingresado := ingresado item; fecha_ingreso := fecha_ingreso item;
     dni := dni item |}.

(** [{ ...item, ingresado: true, fecha_ingreso: now }] *)
Definition with_ingreso (now : jsstring) (item : Invitado) : Invitado :=
  {| id := id item; nombre_completo := nombre_completo item;
     tipo_invitado := tipo_invitado item; qr_code := qr_code item;
     ingresado := true; fecha_ingreso := Some now;
     dni := dni item |}.

(* ================================================================== *)
(** ** Session gate *)
(* ================================================================== *)

(** The value read from the session:
    [JSON.parse(sessionStorage.getItem('admin_user') || 'null')], and
    [null] when that throws. *)
Definition session_user (b : Browser) : json :=
  let text :=
    match sessionStorage b with
    | Some t => str_or t (js "null")
    | None => js "null"
    end in
  match JSON_parse text with
  | Some v => v
  | None => JNull
  end.

(** The effect of [Protected]: without a session user, go to the login. *)
Definition Protected (b : Browser) : Browser :=
  if negb (truthy (session_user b)) then navigate RLogin b else b.

Module Auth.

(** The state of [useAuth]: the user name of the admin object. *)
Definition state := option jsstring.

Definition login (u p : jsstring) (b : Browser) (user : state)
  : bool * Browser * state :=
  if str_eqb u ADMIN_USER && str_eqb p ADMIN_PASS then
    let b' := set_session (Some (JSON_stringify [(js "username", u)])) b in
    (true, b', Some u)
  else (false, b, user).

Definition logout (b : Browser) (user : state) : Browser * state :=
  (set_session None b, None).

End Auth.

Module Login.

Record state := { u : jsstring; p : jsstring; error : jsstring }.

Definition handle (b : Browser) (s : state) : Browser * state :=
  if str_eqb (u s) ADMIN_USER && str_eqb (p s) ADMIN_PASS then
    let b' := set_session (Some (JSON_stringify [(js "username", u s)])) b in
    (navigate RDashboard b', s)
  else
    (b, {| u := u s; p := p s; error := js "Credenciales incorrectas" |}).

(** The effect run when the login page opens: with a session user, go
    to the dashboard. *)
Definition mount (b : Browser) : Browser :=
  if truthy (session_user b) then navigate RDashboard b else b.

End Login.

(** [logout] of the top bar. *)
Definition logout (b : Browser) : Browser :=
  navigate RLogin (set_session None b).

(* ================================================================== *)
(** ** Dashboard *)
(* ================================================================== *)

Module Dashboard.

Record state := {
  invitados : list Invitado;
  q : jsstring;
  dniQ : jsstring;
  newNombre : jsstring;
  newTipo : tipo
}.

Definition initial : state :=
  {| invitados := []; q := []; dniQ := []; newNombre := [];
     newTipo := INVITADO |}.

Definition setInvitados (l : list Invitado) (s : state) : state :=
  {| invitados := l; q := q s; dniQ := dniQ s;
     newNombre := newNombre s; newTipo := newTipo s |}.

Definition setQ (v : jsstring) (s : state) : state :=
  {| invitados := invitados s; q := v; dniQ := dniQ s;
     newNombre := newNombre s; newTipo := newTipo s |}.

Definition setDniQ (v : jsstring) (s : state) : state :=
  {| invitados := invitados s; q := q s; dniQ := v;
     newNombre := newNombre s; newTipo := newTipo s |}.

Definition setNewNombre (v : jsstring) (s : state) : state :=
  {| invitados := invitados s; q := q s; dniQ := dniQ s;
     newNombre := v; newTipo := newTipo s |}.

Definition setNewTipo (t : tipo) (s : state) : state :=
  {| invitados := invitados s; q := q s; dniQ := dniQ s;
     newNombre := newNombre s; newTipo := t |}.

Definition fetchInvitados (b : Browser) (s : state) : state :=
  setInvitados (loadLocal b) s.

Definition generarQR (inv : Invitado) (b : Browser) (s : state)
  : Browser * state :=
  let qrPayload := JSON_stringify [(js "id", id inv)] in
  let arr :=
    map (fun item =>
           if str_eqb (id item) (id inv)
           then with_qr_code qrPayload item else item)
        (loadLocal b) in
  let b' := saveLocal arr b in
  (b', fetchInvitados b' s).

(** [now] is the text [new Date().toISOString()]. *)
Definition marcarIngreso (inv : Invitado) (now : jsstring)
           (b : Browser) (s : state) : Browser * state :=
  let arr :=
    map (fun item =>
           if str_eqb (id item) (id inv)
           then with_ingreso now item else item)
        (loadLocal b) in
  let b' := saveLocal arr b in
  (b', fetchInvitados b' s).

(** The record [addInvitado] builds. *)
Definition item (rnd36 : jsstring) (s : state) : Invitado :=
  {| id := uid rnd36;
     nombre_completo := trim (newNombre s);
     tipo_invitado := newTipo s;
     qr_code := [];
     ingresado := false;
     fecha_ingreso := None;
     dni := str_or (dniQ s) [] |}.

Definition addInvitado (rnd36 : jsstring) (b : Browser) (s : state)
  : Browser * state :=
  if negb (truthy_str (trim (newNombre s))) then (b, s)
  else
    let arr := loadLocal b ++ [item rnd36 s] in
    let b' := saveLocal arr b in
    let s' := fetchInvitados b' s in
    (b', setDniQ [] (setNewNombre [] s')).

(** The predicate of the filter in [search]. *)
Definition search_pred {E : Engine} (s : state) (inv : Invitado) : bool :=
  let term := toLowerCase (q s) in
  let matchName :=
    truthy_str (nombre_completo inv)
    && includes (toLowerCase (nombre_completo inv)) term in
  let matchDni :=
    truthy_str (dni inv) && includes (dni inv) (q s) in
  let byDni :=
    if truthy_str (dniQ s) then str_eqb (dni inv) (dniQ s) else true in
  (matchName || matchDni) && byDni.

Definition search {E : Engine} (s : state) : list Invitado :=
  filter (search_pred s) (invitados s).

End Dashboard.

(* ================================================================== *)
(** ** Scanner *)
(* ================================================================== *)

Module Scanner.

Record state := {
  result : option jsstring;
  invData : option Invitado;
  message : jsstring;
  invitados : list Invitado
}.

Definition initial : state :=
  {| result := None; invData := None; message := []; invitados := [] |}.

Definition setResult (v : jsstring) (s : state) : state :=
  {| result := Some v; invData := invData s; message := message s;
     invitados := invitados s |}.

Definition setInvData (v : option Invitado) (s : state) : state :=
  {| result := result s; invData := v; message := message s;
     invitados := invitados s |}.

Definition setMessage (v : jsstring) (s : state) : state :=
  {| result := result s; invData := invData s; message := v;
     invitados := invitados s |}.

Definition setInvitados (l : list Invitado) (s : state) : state :=
  {| result := result s; invData := invData s; message := message s;
     invitados := l |}.

(** The effect run when the page opens: the list is read once. *)
Definition mount (b : Browser) : state :=
  setInvitados (loadLocal b) initial.

(** QR inválido *)
Definition QR_INVALIDO : jsstring := js "QR inv" ++ [225%N] ++ js "lido".
Definition NO_REGISTRADO : jsstring := js "Invitado no registrado".
Definition INGRESO_REGISTRADO : jsstring := js "Ingreso registrado".

Definition findInvitado (idv : json) (s : state) : state :=
  match find (fun i => strict_eq (id i) idv) (invitados s) with
  | None => setMessage NO_REGISTRADO (setInvData None s)
  | Some inv => setMessage [] (setInvData (Some inv) s)
  end.

(** What [handleScan] receives: a string, or a result object of the
    reader, of which the model keeps the [text] and the text that
    [JSON.stringify] gives for the object. *)
Inductive data :=
| Text (s : jsstring)
| Result (text json : jsstring).

(** ToBoolean on the argument: an object is truthy. *)
Definition truthy_data (d : data) : bool :=
  match d with
  | Text s => truthy_str s
  | Result _ _ => true
  end.

(** [typeof data === 'string' ? data
     : (data?.text ? data.text : JSON.stringify(data))] *)
Definition raw_of (d : data) : jsstring :=
  match d with
  | Text s => s
  | Result text json => if truthy_str text then text else json
  end.

Definition handleScan (d : data) (s : state) : state :=
  if negb (truthy_data d) then s
  else
    let raw := raw_of d in
    let s1 := setResult raw s in
    match JSON_parse raw with
    | Some parsed =>
        if truthy parsed && truthy_opt (get_prop parsed (js "id"))
        then
          match get_prop parsed (js "id") with
          | Some idv => findInvitado idv s1
          | None => s1
          end
        else setMessage QR_INVALIDO s1
    | None => setMessage QR_INVALIDO s1
    end.

(** The reader's callback on a result: [handleScan(result?.text || result)]. *)
Definition onResult (text json : jsstring) (s : state) : state :=
  handleScan (if truthy_str text then Text text else Result text json) s.

Definition marcar (now : jsstring) (b : Browser) (s : state)
  : Browser * state :=
  match invData s with
  | None => (b, s)
  | Some inv =>
      let arr :=
        map (fun item =>
               if str_eqb (id item) (id inv)
               then with_ingreso now item else item)
            (loadLocal b) in
      let b' := saveLocal arr b in
      (b', setInvData (Some (with_ingreso now inv))
             (setMessage INGRESO_REGISTRADO (setInvitados arr s)))
  end.

(** Whether the page renders the button that runs [marcar]:
    [invData ? ... {!invData.ingresado && <button>} ... : ...]. *)
Definition offers_marcar (s : state) : bool :=
  match invData s with
  | Some inv => negb (ingresado inv)
  | None => false
  end.

End Scanner.

(* ================================================================== *)
(** ** What the program can reach *)
(* ================================================================== *)

(** The browser before the first visit. *)
Definition fresh : Browser :=
  {| localStorage := None; sessionStorage := None; location := RLogin |}.

(** The browsers the program reaches: the module is loaded, which seeds
    an empty collection, and then the operations run, on any argument and
    from any state of their page. *)
Inductive reachable : Browser -> Prop :=
| reach_load rnd1 rnd2 :
    reachable (seed rnd1 rnd2 fresh)
| reach_reload b rnd1 rnd2 :
    reachable b -> reachable (seed rnd1 rnd2 b)
| reach_navigate b r :
    reachable b -> reachable (navigate r b)
| reach_protected b :
    reachable b -> reachable (Protected b)
| reach_login b s :
    reachable b -> reachable (fst (Login.handle b s))
| reach_logout b :
    reachable b -> reachable (logout b)
| reach_generarQR b s inv :
    reachable b -> reachable (fst (Dashboard.generarQR inv b s))
| reach_marcarIngreso b s inv now :
    reachable b -> reachable (fst (Dashboard.marcarIngreso inv now b s))
| reach_addInvitado b s rnd36 :
    reachable b -> reachable (fst (Dashboard.addInvitado rnd36 b s))
| reach_marcar b s now :
    reachable b -> reachable (fst (Scanner.marcar now b s)).

(** A form submission: the three inputs are typed, then the button runs
    [addInvitado] with the draw [alta_rnd]. *)
Record alta := {
  alta_nombre : jsstring;
  alta_tipo : tipo;
  alta_dni : jsstring;
  alta_rnd : jsstring
}.

Definition fill (a : alta) (s : Dashboard.state) : Dashboard.state :=
  Dashboard.setNewTipo (alta_tipo a)
    (Dashboard.setDniQ (alta_dni a)
       (Dashboard.setNewNombre (alta_nombre a) s)).

Definition submit (a : alta) (b : Browser) (s : Dashboard.state)
  : Browser * Dashboard.state :=
  Dashboard.addInvitado (alta_rnd a) b (fill a s).

Fixpoint submit_all (l : list alta) (b : Browser) (s : Dashboard.state)
  : Browser * Dashboard.state :=
  match l with
  | [] => (b, s)
  | a :: l' => let '(b', s') := submit a b s in submit_all l' b' s'
  end.

(** The submissions [addInvitado] does not reject. *)
Definition accepted (a : alta) : bool := truthy_str (trim (alta_nombre a)).

(** The record a submission stores. *)
Definition alta_item (a : alta) : Invitado :=
  Dashboard.item (alta_rnd a) (fill a Dashboard.initial).

(** The identifier a submission's record gets. *)
Definition alta_id (a : alta) : jsstring := uid (alta_rnd a).


(* ================================================================== *)
(** ** The specification's wording, for comparison with the code *)
(* ================================================================== *)

Inductive scan_report :=
| Malformed
| NotRegistered
| Matched (r : Invitado).

(** What the scanner page shows, read off its state. *)
Definition report (s : Scanner.state) : option scan_report :=
  if str_eqb (Scanner.message s) Scanner.QR_INVALIDO then Some Malformed
  else if str_eqb (Scanner.message s) Scanner.NO_REGISTRADO
  then Some NotRegistered
  else
    match Scanner.invData s, Scanner.message s with
    | Some r, [] => Some (Matched r)
    | _, _ => None
    end.

(** The scan-matcher in the specification's words: malformed when the
    payload does not parse or has no identifier field, not registered
    when the identifier is absent from the list, matched otherwise. *)
Definition spec_scan (payload : jsstring) (l : list Invitado)
  : scan_report :=
  match JSON_parse payload with
  | None => Malformed
  | Some v =>
      match get_prop v (js "id") with
      | None => Malformed
      | Some idv =>
          match find (fun i => strict_eq (id i) idv) l with
          | None => NotRegistered
          | Some r => Matched r
          end
      end
  end.

(** [p] occurs in [s]. *)
Definition contains (s p : jsstring) : Prop :=
  exists pre post, s = pre ++ p ++ post.

(** The search in the specification's words: the name contains the query
    whatever the case, that is, once both are in lower case; or the
    national id contains the query; and the national id equals the
    filter when one is given. *)
Definition spec_search {E : Engine} (query filter : jsstring)
           (inv : Invitado) : Prop :=
  (contains (toLowerCase (nombre_completo inv)) (toLowerCase query)
   \/ contains (dni inv) query)
  /\ (filter = [] \/ dni inv = filter).

(** What every record the program stores has: an identifier, a name,
    and for its code nothing or the text of [{ id }]. *)
Definition stored_ok (r : Invitado) : Prop :=
  id r <> []
  /\ nombre_completo r <> []
  /\ (qr_code r = [] \/ qr_code r = JSON_stringify [(js "id", id r)]).

(** The lists the dashboard holds: none before the first fetch, then
    what a reachable browser stores. *)
Inductive listed : list Invitado -> Prop :=
| listed_initial : listed []
| listed_fetch b : reachable b -> listed (loadLocal b).

(** The frame of one update of the stored collection, from [b] to [b']
    and aimed at the identifier [k]: same length, same session and route,
    the records with another identifier untouched at their positions, and
    nothing changed at all when no record has the identifier. *)
Definition frame_of (k : jsstring) (b b' : Browser) : Prop :=
  List.length (loadLocal b') = List.length (loadLocal b)
  /\ sessionStorage b' = sessionStorage b
  /\ location b' = location b
  /\ (forall i r, nth_error (loadLocal b) i = Some r -> id r <> k ->
        nth_error (loadLocal b') i = Some r)
  /\ ((forall r, In r (loadLocal b) -> id r <> k) ->
        loadLocal b' = loadLocal b).

(** Case analysis on the comparisons of a goal. *)
Ltac break_cmp :=
  repeat match goal with
         | |- context [N.leb ?a ?b] => destruct (N.leb_spec a b)
         | |- context [N.ltb ?a ?b] => destruct (N.ltb_spec a b)
         | |- context [N.eqb ?a ?b] => destruct (N.eqb_spec a b)
         end; cbv beta iota delta [andb orb negb].


(** The invariant of a record: no entry date exactly when not entered. *)
Definition fecha_ok (r : Invitado) : Prop :=
  fecha_ingreso r = None <-> ingresado r = false.

(* ================================================================== *)
(** ** Cards *)
(* ================================================================== *)

Module Tarjetas.

(** The value of the code drawn on a card:
    [inv.qr_code || JSON.stringify({ id: inv.id })]. *)
Definition qr_value (inv : Invitado) : jsstring :=
  str_or (qr_code inv) (JSON_stringify [(js "id", id inv)]).

(** [s.replace(/\s+/g, '_')]: every maximal run of white space becomes
    one underscore.  [in_run] tells that the unit before was white
    space.  The class [\s] is the set [trim] strips. *)
Fixpoint replace_spaces (in_run : bool) (s : jsstring) : jsstring :=
  match s with
  | [] => []
  | c :: s' =>
      if is_js_space c
      then if in_run then replace_spaces true s'
           else 95%N :: replace_spaces true s'
      else c :: replace_spaces false s'
  end.

(** The name of the downloaded file, with the extension [ext]. *)
Definition file_name (inv : Invitado) (ext : jsstring) : jsstring :=
  replace_spaces false (nombre_completo inv) ++ ext.

End Tarjetas.

(* ================================================================== *)
(** ** The stored collection as text *)
(* ================================================================== *)

(** [saveLocal] and [loadLocal] at the level of the text that
    localStorage holds. *)
Module Blob.

Definition tipo_text (t : tipo) : jsstring :=
  match t with
  | INVITADO => js "INVITADO"
  | PROMOCIONADO => js "PROMOCIONADO"
  end.

(** The object a record is, with its properties in the order the
    program creates them. *)
Definition to_json (r : Invitado) : json :=
  JObj [ (js "id", JStr (id r));
         (js "nombre_completo", JStr (nombre_completo r));
         (js "tipo_invitado", JStr (tipo_text (tipo_invitado r)));
         (js "qr_code", JStr (qr_code r));
         (js "ingresado", JBool (ingresado r));
         (js "fecha_ingreso",
          match fecha_ingreso r with Some t => JStr t | None => JNull end);
         (js "dni", JStr (dni r)) ].

Definition stringify_bool (b : bool) : jsstring :=
  if b then js "true" else js "false".

Definition stringify_fecha (f : option jsstring) : jsstring :=
  match f with
  | Some t => QuoteJSONString t
  | None => js "null"
  end.

(** [JSON.stringify(r)] for a record. *)
Definition stringify_invitado (r : Invitado) : jsstring :=
  jsq "{'id':" ++ QuoteJSONString (id r)
  ++ jsq ",'nombre_completo':" ++ QuoteJSONString (nombre_completo r)
  ++ jsq ",'tipo_invitado':"
  ++ QuoteJSONString (tipo_text (tipo_invitado r))
  ++ jsq ",'qr_code':" ++ QuoteJSONString (qr_code r)
  ++ jsq ",'ingresado':" ++ stringify_bool (ingresado r)
  ++ jsq ",'fecha_ingreso':" ++ stringify_fecha (fecha_ingreso r)
  ++ jsq ",'dni':" ++ QuoteJSONString (dni r)
  ++ js "}".

Fixpoint stringify_items (l : list Invitado) : jsstring :=
  match l with
  | [] => []
  | [r] => stringify_invitado r
  | r :: l' => stringify_invitado r ++ 44%N :: stringify_items l'
  end.

(** [JSON.stringify(arr)] for an array of records. *)
Definition stringify (arr : list Invitado) : jsstring :=
  91%N :: stringify_items arr ++ [93%N].

(** [saveLocal]: the text put under [LOCAL_KEY]. *)
Definition saveLocal (arr : list Invitado) : option jsstring :=
  Some (stringify arr).

(** [loadLocal]: [JSON.parse(localStorage.getItem(LOCAL_KEY) || '[]')],
    and the empty array when that throws. *)
Definition loadLocal (item : option jsstring) : json :=
  let text :=
    match item with
    | Some t => str_or t (js "[]")
    | None => js "[]"
    end in
  match JSON_parse text with
  | Some v => v
  | None => JArr []
  end.

(** The tokens of the text of a record. *)
Definition tokens_invitado (r : Invitado) : list token :=
  [ TLBrace; TString (js "id"); TColon; TString (id r); TComma;
    TString (js "nombre_completo"); TColon; TString (nombre_completo r);
    TComma;
    TString (js "tipo_invitado"); TColon;
    TString (tipo_text (tipo_invitado r)); TComma;
    TString (js "qr_code"); TColon; TString (qr_code r); TComma;
    TString (js "ingresado"); TColon; TValue (JBool (ingresado r)); TComma;
    TString (js "fecha_ingreso"); TColon;
    match fecha_ingreso r with
    | Some t => TString t
    | None => TValue JNull
    end; TComma;
    TString (js "dni"); TColon; TString (dni r); TRBrace ].

Fixpoint tokens_items (l : list Invitado) : list token :=
  match l with
  | [] => []
  | [r] => tokens_invitado r
  | r :: l' => tokens_invitado r ++ TComma :: tokens_items l'
  end.

End Blob.

(** The automaton run over a piece of text: the tokens emitted and the
    state reached. *)
Fixpoint lex_run (st : lexstate) (s : jsstring)
  : option (list token * lexstate) :=
  match s with
  | [] => Some ([], st)
  | c :: s' =>
      match lex_step st c with
      | Some (toks, st') =>
          match lex_run st' s' with
          | Some (toks', st'') => Some (toks ++ toks', st'')
          | None => None
          end
      | None => None
      end
  end.

(** Lexes one piece of constant text by running the automaton on it;
    [split_lemma] is the lemma that lexes a text in two pieces. *)
Ltac lex_piece split_lemma :=
  rewrite split_lemma;
  match goal with
  | |- context [lex_run ?st ?p] =>
      let v := eval vm_compute in (lex_run st p) in
      change (lex_run st p) with v
  end;
  cbv beta iota.

(* ================================================================== *)
(** ** One operation after another *)
(* ================================================================== *)

(** One operation of the program, on any argument and from any state of
    its page. *)
Inductive step : Browser -> Browser -> Prop :=
| step_reload b rnd1 rnd2 : step b (seed rnd1 rnd2 b)
| step_navigate b r : step b (navigate r b)
| step_protected b : step b (Protected b)
| step_login_mount b : step b (Login.mount b)
| step_login b s : step b (fst (Login.handle b s))
| step_logout b : step b (logout b)
| step_generarQR b s inv : step b (fst (Dashboard.generarQR inv b s))
| step_marcarIngreso b s inv now :
    step b (fst (Dashboard.marcarIngreso inv now b s))
| step_addInvitado b s rnd36 :
    step b (fst (Dashboard.addInvitado rnd36 b s))
| step_marcar b s now : step b (fst (Scanner.marcar now b s)).

(** Any number of operations. *)
Inductive steps : Browser -> Browser -> Prop :=
| steps_refl b : steps b b
| steps_step b b1 b2 : step b b1 -> steps b1 b2 -> steps b b2.

(** What a stored record keeps through the operations: its identifier,
    name, type and national id; its entry flag once set; its code once
    generated. *)
Definition kept (r r' : Invitado) : Prop :=
  id r' = id r
  /\ nombre_completo r' = nombre_completo r
  /\ tipo_invitado r' = tipo_invitado r
  /\ dni r' = dni r
  /\ (ingresado r = true -> ingresado r' = true)
  /\ (fecha_ingreso r <> None -> fecha_ingreso r' <> None)
  /\ (qr_code r <> [] -> qr_code r' <> []).

(** What a record the program created has: an identifier out of [uid],
    a name that is not empty and has no white space at its ends, an
    entry date exactly when entered, and for its code nothing or the
    text of [{ id }]. *)
Definition created (r : Invitado) : Prop :=
  (exists rnd36, id r = uid rnd36)
  /\ nombre_completo r <> []
  /\ trim (nombre_completo r) = nombre_completo r
  /\ fecha_ok r
  /\ (qr_code r = [] \/ qr_code r = JSON_stringify [(js "id", id r)]).

(** The effect that runs on the current route: the login page's on [/],
    [Protected] on the three routes it wraps. *)
Definition page_effect (b : Browser) : Browser :=
  match location b with
  | RLogin => Login.mount b
  | RDashboard | RScanner | RTarjetas => Protected b
  end.

(** One event on the open dashboard: an input is typed in, or a button
    runs its handler. *)
Inductive dash_step
  : Browser * Dashboard.state -> Browser * Dashboard.state -> Prop :=
| dash_setQ b s v : dash_step (b, s) (b, Dashboard.setQ v s)
| dash_setDniQ b s v : dash_step (b, s) (b, Dashboard.setDniQ v s)
| dash_setNewNombre b s v :
    dash_step (b, s) (b, Dashboard.setNewNombre v s)
| dash_setNewTipo b s t : dash_step (b, s) (b, Dashboard.setNewTipo t s)
| dash_generarQR b s inv : dash_step (b, s) (Dashboard.generarQR inv b s)
| dash_marcarIngreso b s inv now :
    dash_step (b, s) (Dashboard.marcarIngreso inv now b s)
| dash_addInvitado b s rnd36 :
    dash_step (b, s) (Dashboard.addInvitado rnd36 b s).

(** The dashboard after it opened on [b0], fetched the list, and went
    through any number of events. *)
Inductive dash_run (b0 : Browser) : Browser * Dashboard.state -> Prop :=
| dash_open :
    dash_run b0 (b0, Dashboard.fetchInvitados b0 Dashboard.initial)
| dash_next x y : dash_run b0 x -> dash_step x y -> dash_run b0 y.

(* ================================================================== *)
(** ** Strings *)
(* ================================================================== *)

Lemma str_eqb_eq (a b : jsstring) : str_eqb a b = true <-> a = b.
Proof.
  revert b; induction a as [|x a IH]; intros [|y b]; simpl;
    try (split; [discriminate | congruence]); try tauto.
  rewrite andb_true_iff, N.eqb_eq, IH.
  split; [intros [-> ->]; reflexivity | intros H; inversion H; auto].
Qed.

Lemma str_eqb_refl (a : jsstring) : str_eqb a a = true.
Proof. apply str_eqb_eq; reflexivity. Qed.

Lemma str_eqb_neq (a b : jsstring) : str_eqb a b = false <-> a <> b.
Proof.
  rewrite <- str_eqb_eq. destruct (str_eqb a b); split; congruence.
Qed.

Lemma truthy_str_false (s : jsstring) : truthy_str s = false <-> s = [].
Proof. destruct s; simpl; split; congruence. Qed.

Lemma truthy_str_true (s : jsstring) : truthy_str s = true <-> s <> [].
Proof. destruct s; simpl; split; congruence. Qed.

Lemma str_or_empty (s : jsstring) : str_or s [] = s.
Proof. destruct s; reflexivity. Qed.

Lemma starts_with_prefix (p s : jsstring) :
  starts_with p s = true <-> exists post, s = p ++ post.
Proof.
  revert s; induction p as [|x p IH]; intros s; simpl.
  - split; [intros _; exists s; reflexivity | reflexivity].
  - destruct s as [|y s].
    + split; [discriminate | intros [post H]; discriminate].
    + rewrite andb_true_iff, N.eqb_eq, IH. split.
      * intros [-> [post ->]]. exists post; reflexivity.
      * intros [post H]. inversion H; subst. split; [reflexivity | eauto].
Qed.

Lemma includes_contains (s p : jsstring) :
  includes s p = true <-> contains s p.
Proof.
  unfold contains. induction s as [|c s IH].
  - simpl. rewrite orb_false_r, starts_with_prefix. split.
    + intros [post H]. exists [], post. exact H.
    + intros [pre [post H]]. destruct pre; simpl in H.
      * eauto.
      * discriminate.
  - simpl. rewrite orb_true_iff, starts_with_prefix, IH. split.
    + intros [[post H] | [pre [post H]]].
      * exists [], post. exact H.
      * exists (c :: pre), post. simpl. congruence.
    + intros [[|x pre] [post H]]; simpl in H.
      * left; eauto.
      * right. inversion H; subst. eauto.
Qed.

Lemma includes_empty_needle (s : jsstring) : includes s [] = true.
Proof. destruct s; reflexivity. Qed.

Lemma includes_empty_hay (p : jsstring) :
  includes [] p = true -> p = [].
Proof. destruct p; simpl; [reflexivity | discriminate]. Qed.

Lemma trim_start_all_space (s : jsstring) :
  forallb is_js_space s = true -> trim_start s = [].
Proof.
  induction s as [|c s IH]; simpl; [reflexivity|].
  destruct (is_js_space c); simpl; [exact IH | discriminate].
Qed.

Lemma trim_blank (s : jsstring) :
  forallb is_js_space s = true -> trim s = [].
Proof.
  intros H. unfold trim. rewrite (trim_start_all_space s H). reflexivity.
Qed.

Lemma trim_start_nil_blank (s : jsstring) :
  trim_start s = [] -> forallb is_js_space s = true.
Proof.
  induction s as [|c s IH]; simpl; [reflexivity|].
  destruct (is_js_space c); simpl; [exact IH | discriminate].
Qed.

Lemma trim_start_head (s : jsstring) c t :
  trim_start s = c :: t -> is_js_space c = false.
Proof.
  induction s as [|x s IH]; simpl; [discriminate|].
  destruct (is_js_space x) eqn:E; [exact IH|].
  intros H; inversion H; subst; exact E.
Qed.

(** [trim] gives the empty string exactly on the strings made of
    white space only, the empty one among them. *)
Lemma trim_nil_iff (s : jsstring) :
  trim s = [] <-> forallb is_js_space s = true.
Proof.
  split; [|apply trim_blank].
  unfold trim. intros H.
  assert (H1 : trim_start (rev (trim_start s)) = []).
  { destruct (trim_start (rev (trim_start s))) as [|x l]; [reflexivity|].
    simpl in H. destruct (rev l); discriminate. }
  apply trim_start_nil_blank.
  destruct (trim_start s) as [|c t] eqn:E; [reflexivity|].
  exfalso.
  pose proof (@trim_start_head s c t E) as Hc.
  pose proof (trim_start_nil_blank _ H1) as H2.
  simpl in H2. rewrite forallb_app in H2. simpl in H2.
  rewrite Hc in H2. rewrite andb_false_r in H2. discriminate.
Qed.

Lemma uid_nonempty (rnd36 : jsstring) : uid rnd36 <> [].
Proof. unfold uid. simpl. discriminate. Qed.

(* ================================================================== *)
(** ** JSON: a printed string reads back *)
(* ================================================================== *)

Lemma option_map_app_nil (A : Type) (o : option (list A)) :
  option_map (app []) o = o.
Proof. destruct o; reflexivity. Qed.

(** A step that emits no token only moves the automaton. *)
Lemma lex_silent st c st' (s : jsstring) :
  lex_step st c = Some ([], st') -> lex st (c :: s) = lex st' s.
Proof. intros H. simpl. rewrite H. apply option_map_app_nil. Qed.

Lemma hex_val_digit (h : N) :
  (h < 16)%N -> hex_val (hex_digit h) = Some h.
Proof.
  intros H. unfold hex_val, hex_digit, is_digit.
  destruct (N.ltb_spec h 10); break_cmp; try lia; f_equal; lia.
Qed.

Lemma hex_nibble_lt (c k : N) : ((c / k) mod 16 < 16)%N.
Proof. apply N.mod_lt. discriminate. Qed.

Lemma hex4_value (c : N) :
  (c < 65536)%N ->
  (4096 * ((c / 4096) mod 16) + 256 * ((c / 256) mod 16)
   + 16 * ((c / 16) mod 16) + c mod 16 = c)%N.
Proof.
  intros H.
  pose proof (N.div_mod c 16 ltac:(discriminate)) as E0.
  pose proof (N.div_mod (c / 16) 16 ltac:(discriminate)) as E1.
  pose proof (N.div_mod (c / 256) 16 ltac:(discriminate)) as E2.
  pose proof (N.div_mod (c / 4096) 16 ltac:(discriminate)) as E3.
  rewrite N.Div0.div_div in E1, E2, E3.
  change (16 * 16)%N with 256%N in *.
  change (256 * 16)%N with 4096%N in *.
  change (4096 * 16)%N with 65536%N in *.
  rewrite (N.div_small c 65536 H) in E3.
  lia.
Qed.

Lemma lex_unicode_escape acc (c : N) (s : jsstring) :
  (c < 65536)%N ->
  lex (LStr acc) (unicode_escape c ++ s) = lex (LStr (c :: acc)) s.
Proof.
  intros H. unfold unicode_escape.
  change (lex (LStr acc)
            (92 :: 117 :: hex_digit ((c / 4096) mod 16)
               :: hex_digit ((c / 256) mod 16)
               :: hex_digit ((c / 16) mod 16)
               :: hex_digit (c mod 16) :: s)%N
          = lex (LStr (c :: acc)) s).
  rewrite (@lex_silent (LStr acc) 92%N (LEsc acc)) by reflexivity.
  rewrite (@lex_silent (LEsc acc) 117%N (LHex acc [])) by reflexivity.
  rewrite (@lex_silent (LHex acc []) _ (LHex acc [(c / 4096) mod 16]%N))
    by (unfold lex_step; rewrite hex_val_digit by apply hex_nibble_lt;
        reflexivity).
  rewrite (@lex_silent _ _
             (LHex acc [(c / 256) mod 16; (c / 4096) mod 16]%N))
    by (unfold lex_step; rewrite hex_val_digit by apply hex_nibble_lt;
        reflexivity).
  rewrite (@lex_silent _ _
             (LHex acc [(c / 16) mod 16; (c / 256) mod 16;
                        (c / 4096) mod 16]%N))
    by (unfold lex_step; rewrite hex_val_digit by apply hex_nibble_lt;
        reflexivity).
  rewrite (@lex_silent _ _ (LStr (c :: acc))).
  - reflexivity.
  - unfold lex_step.
    rewrite hex_val_digit by (apply N.mod_lt; discriminate).
    rewrite hex4_value by exact H. reflexivity.
Qed.

Lemma lex_plain acc (c : N) (s : jsstring) :
  c <> 34%N -> c <> 92%N -> (32 <= c)%N ->
  lex (LStr acc) (c :: s) = lex (LStr (c :: acc)) s.
Proof.
  intros H1 H2 H3. apply lex_silent. unfold lex_step.
  break_cmp; try lia; try congruence.
Qed.

Lemma lex_escape_unit acc (c : N) (s : jsstring) :
  lex (LStr acc) (escape_unit c ++ s) = lex (LStr (c :: acc)) s.
Proof.
  unfold escape_unit.
  repeat match goal with
         | |- context [N.eqb c ?k] =>
             destruct (N.eqb_spec c k);
             [subst c; simpl; rewrite !option_map_app_nil; reflexivity|]
         end.
  destruct (N.ltb_spec c 32).
  - apply lex_unicode_escape. lia.
  - apply lex_plain; assumption.
Qed.

Lemma surrogate_plain (c : N) :
  is_high_surrogate c = true \/ is_low_surrogate c = true ->
  c <> 34%N /\ c <> 92%N /\ (32 <= c)%N /\ (c < 65536)%N.
Proof.
  unfold is_high_surrogate, is_low_surrogate.
  rewrite !andb_true_iff, !N.leb_le. lia.
Qed.

(** Induction on a list two elements at a time. *)
Lemma list_pair_ind (A : Type) (P : list A -> Prop) :
  P [] ->
  (forall a, P [a]) ->
  (forall a b l, P l -> P (b :: l) -> P (a :: b :: l)) ->
  forall l, P l.
Proof.
  intros H0 H1 H2.
  assert (H : forall l, P l /\ forall a, P (a :: l)).
  { induction l as [|b l [IH1 IH2]].
    - split; [exact H0 | exact H1].
    - split; [apply IH2 | intros a; apply H2; [exact IH1 | apply IH2]]. }
  intros l. apply H.
Qed.

(** The automaton, inside a string, reads the printed body of [s] up to
    the closing quote and emits [s] after what it already held. *)
Lemma lex_quote_units (s : jsstring) :
  forall acc rest,
    lex (LStr acc) (quote_units s ++ 34%N :: rest)
    = option_map (app [TString (rev acc ++ s)]) (lex LDefault rest).
Proof.
  induction s as [|a|a b l IHl IHbl] using list_pair_ind; intros acc rest.
  - simpl. rewrite app_nil_r. reflexivity.
  - assert (Hend : lex (LStr (a :: acc)) (34%N :: rest)
                   = option_map (app [TString (rev acc ++ [a])])
                       (lex LDefault rest)) by reflexivity.
    change (quote_units [a]) with
      (if is_high_surrogate a then unicode_escape a
       else if is_low_surrogate a then unicode_escape a ++ []
            else escape_unit a ++ []).
    rewrite !app_nil_r.
    destruct (is_high_surrogate a) eqn:Hh;
      [|destruct (is_low_surrogate a) eqn:Hl].
    + rewrite lex_unicode_escape by (apply surrogate_plain; auto).
      exact Hend.
    + rewrite lex_unicode_escape by (apply surrogate_plain; auto).
      exact Hend.
    + rewrite lex_escape_unit. exact Hend.
  - assert (Hnext : lex (LStr (a :: acc)) (quote_units (b :: l) ++ 34%N :: rest)
                    = option_map (app [TString (rev acc ++ a :: b :: l)])
                        (lex LDefault rest)).
    { rewrite IHbl. simpl rev. rewrite <- app_assoc. reflexivity. }
    change (quote_units (a :: b :: l)) with
      (if is_high_surrogate a then
         if is_low_surrogate b then a :: b :: quote_units l
         else unicode_escape a ++ quote_units (b :: l)
       else if is_low_surrogate a
            then unicode_escape a ++ quote_units (b :: l)
            else escape_unit a ++ quote_units (b :: l)).
    destruct (is_high_surrogate a) eqn:Hh;
      [destruct (is_low_surrogate b) eqn:Hb
      |destruct (is_low_surrogate a) eqn:Hl].
    + destruct (@surrogate_plain a) as (A1 & A2 & A3 & _); auto.
      destruct (@surrogate_plain b) as (B1 & B2 & B3 & _); auto.
      simpl app.
      rewrite lex_plain by assumption.
      rewrite lex_plain by assumption.
      rewrite IHl. simpl rev. rewrite <- !app_assoc. reflexivity.
    + rewrite <- app_assoc.
      rewrite lex_unicode_escape by (apply surrogate_plain; auto).
      exact Hnext.
    + rewrite <- app_assoc.
      rewrite lex_unicode_escape by (apply surrogate_plain; auto).
      exact Hnext.
    + rewrite <- app_assoc. rewrite lex_escape_unit. exact Hnext.
Qed.

Lemma lex_QuoteJSONString (s rest : jsstring) :
  lex LDefault (QuoteJSONString s ++ rest)
  = option_map (app [TString s]) (lex LDefault rest).
Proof.
  unfold QuoteJSONString. simpl app. rewrite <- app_assoc. simpl app.
  rewrite (@lex_silent LDefault 34%N (LStr [])) by reflexivity.
  apply lex_quote_units.
Qed.

(** [JSON.parse(JSON.stringify({ k: v }))] is the object with the one
    member [k], whose value is the string [v]. *)
Lemma JSON_parse_stringify (k v : jsstring) :
  JSON_parse (JSON_stringify [(k, v)]) = Some (JObj [(k, JStr v)]).
Proof.
  unfold JSON_parse, JSON_stringify, stringify_members.
  change (123%N :: (QuoteJSONString k ++ 58%N :: QuoteJSONString v)
            ++ [125%N])
    with ([123%N] ++ (QuoteJSONString k ++ 58%N :: QuoteJSONString v)
            ++ [125%N]).
  assert (E : lex LDefault
                ([123%N] ++ (QuoteJSONString k ++ 58%N :: QuoteJSONString v)
                   ++ [125%N])
              = Some [TLBrace; TString k; TColon; TString v; TRBrace]).
  { change (lex LDefault ([123%N] ++ ?x)) with
      (option_map (app [TLBrace]) (lex LDefault x)).
    rewrite <- app_assoc. rewrite lex_QuoteJSONString.
    change (lex LDefault ((58%N :: QuoteJSONString v) ++ [125%N])) with
      (option_map (app [TColon])
         (lex LDefault (QuoteJSONString v ++ [125%N]))).
    rewrite lex_QuoteJSONString. reflexivity. }
  rewrite E. reflexivity.
Qed.

(* ================================================================== *)
(** ** The update by identifier *)
(* ================================================================== *)

Lemma loadLocal_saveLocal (arr : list Invitado) (b : Browser) :
  loadLocal (saveLocal arr b) = arr.
Proof. reflexivity. Qed.

Section UpdateById.

Variable k : jsstring.
Variable f : Invitado -> Invitado.

Lemma update_length (l : list Invitado) :
  List.length
    (map (fun item => if str_eqb (id item) k then f item else item) l)
  = List.length l.
Proof. apply length_map. Qed.

Lemma update_other (l : list Invitado) (i : nat) (r : Invitado) :
  nth_error l i = Some r -> id r <> k ->
  nth_error
    (map (fun item => if str_eqb (id item) k then f item else item) l) i
  = Some r.
Proof.
  intros H Hk. rewrite nth_error_map, H. simpl. cbv beta.
  apply str_eqb_neq in Hk. rewrite Hk. reflexivity.
Qed.

Lemma update_target (l : list Invitado) (i : nat) (r : Invitado) :
  nth_error l i = Some r -> id r = k ->
  nth_error
    (map (fun item => if str_eqb (id item) k then f item else item) l) i
  = Some (f r).
Proof.
  intros H Hk. rewrite nth_error_map, H. simpl. cbv beta.
  rewrite Hk, str_eqb_refl. reflexivity.
Qed.

Lemma update_absent (l : list Invitado) :
  (forall r, In r l -> id r <> k) ->
  map (fun item => if str_eqb (id item) k then f item else item) l = l.
Proof.
  intros H. rewrite <- (map_id l) at 2. apply map_ext_in.
  intros r Hr. cbv beta.
  rewrite (proj2 (str_eqb_neq (id r) k) (H r Hr)). reflexivity.
Qed.

Lemma update_in (l : list Invitado) (r : Invitado) :
  In r (map (fun item => if str_eqb (id item) k then f item else item) l) ->
  exists r0, In r0 l /\ r = (if str_eqb (id r0) k then f r0 else r0).
Proof.
  rewrite in_map_iff. intros [r0 [E Hr0]]. exists r0. split; auto.
Qed.

Lemma update_twice (g : Invitado -> Invitado) (l : list Invitado) :
  (forall r, id (f r) = id r) ->
  (forall r, g (f r) = g r) ->
  map (fun item => if str_eqb (id item) k then g item else item)
      (map (fun item => if str_eqb (id item) k then f item else item) l)
  = map (fun item => if str_eqb (id item) k then g item else item) l.
Proof.
  intros Hid Hg. rewrite map_map. apply map_ext. intros r. cbv beta.
  destruct (str_eqb (id r) k) eqn:E.
  - rewrite Hid, E. apply Hg.
  - rewrite E. reflexivity.
Qed.

Lemma update_Forall (P : Invitado -> Prop) (l : list Invitado) :
  (forall r, P r -> P (f r)) -> Forall P l ->
  Forall P
    (map (fun item => if str_eqb (id item) k then f item else item) l).
Proof.
  intros Hf H. apply Forall_map. eapply Forall_impl; [|exact H].
  intros r Hr. cbv beta. destruct (str_eqb (id r) k); auto.
Qed.

End UpdateById.

(* ================================================================== *)
(** ** Marking an entry *)
(* ================================================================== *)

(** C1.  [marcarIngreso] gives every stored record with the invitee's
    identifier [ingresado = true] and the entry date of the call; it has
    no guard: run again it stores the date of the second call, so that
    the two calls leave what the second alone would, and a different
    collection from the first when the dates differ.  [marcar], the
    scanner's action, writes the same collection and shows the record
    with the new date. *)
Theorem marcarIngreso_sets_and_rewrites
  (inv : Invitado) (t1 t2 : jsstring) (b : Browser) (s : Dashboard.state) :
  let once := Dashboard.marcarIngreso inv t1 b s in
  let twice := Dashboard.marcarIngreso inv t2 (fst once) (snd once) in
  (forall i r, nth_error (loadLocal b) i = Some r -> id r = id inv ->
     nth_error (loadLocal (fst once)) i = Some (with_ingreso t1 r))
  /\ (forall r, In r (loadLocal (fst once)) -> id r = id inv ->
        ingresado r = true /\ fecha_ingreso r = Some t1)
  /\ (forall r, In r (loadLocal (fst twice)) -> id r = id inv ->
        ingresado r = true /\ fecha_ingreso r = Some t2)
  /\ twice = Dashboard.marcarIngreso inv t2 b s
  /\ (t1 <> t2 -> (exists r, In r (loadLocal b) /\ id r = id inv) ->
        loadLocal (fst twice) <> loadLocal (fst once))
  /\ (forall sc, Scanner.invData sc = Some inv ->
        fst (Scanner.marcar t2 b sc) = fst (Dashboard.marcarIngreso inv t2 b s)
        /\ Scanner.invData (snd (Scanner.marcar t2 b sc))
           = Some (with_ingreso t2 inv)).
Proof.
  assert (Hset : forall t l r,
             In r (map (fun item => if str_eqb (id item) (id inv)
                                    then with_ingreso t item else item) l) ->
             id r = id inv ->
             ingresado r = true /\ fecha_ingreso r = Some t).
  { intros t l r Hr Hid. apply update_in in Hr. destruct Hr as [r0 [_ ->]].
    destruct (str_eqb (id r0) (id inv)) eqn:E.
    - split; reflexivity.
    - apply str_eqb_neq in E. contradiction. }
  assert (Htwice :
            Dashboard.marcarIngreso inv t2
              (fst (Dashboard.marcarIngreso inv t1 b s))
              (snd (Dashboard.marcarIngreso inv t1 b s))
            = Dashboard.marcarIngreso inv t2 b s).
  { unfold Dashboard.marcarIngreso, Dashboard.fetchInvitados,
      Dashboard.setInvitados, saveLocal, loadLocal. simpl.
    rewrite update_twice by reflexivity. reflexivity. }
  cbv zeta. rewrite Htwice.
  split; [|split; [|split; [|split; [|split]]]].
  - intros i r H Hid. simpl. apply update_target; assumption.
  - intros r. apply Hset.
  - intros r. apply Hset.
  - reflexivity.
  - intros Hne [r [Hr Hid]] E. simpl in E.
    rewrite !loadLocal_saveLocal in E.
    apply In_nth_error in Hr. destruct Hr as [i Hi].
    pose proof (update_target (id inv) (with_ingreso t1) _ _ _ Hi Hid) as A1.
    pose proof (update_target (id inv) (with_ingreso t2) _ _ _ Hi Hid) as A2.
    rewrite E in A2. rewrite A1 in A2. inversion A2. congruence.
  - intros sc H. unfold Scanner.marcar. rewrite H. split; reflexivity.
Qed.

(* ================================================================== *)
(** ** The entry date and the entry flag *)
(* ================================================================== *)

Lemma fecha_ok_with_qr_code (payload : jsstring) (r : Invitado) :
  fecha_ok r -> fecha_ok (with_qr_code payload r).
Proof. intros H. exact H. Qed.

Lemma fecha_ok_with_ingreso (now : jsstring) (r : Invitado) :
  fecha_ok (with_ingreso now r).
Proof. unfold fecha_ok. simpl. split; discriminate. Qed.

Lemma fecha_ok_item (rnd36 : jsstring) (s : Dashboard.state) :
  fecha_ok (Dashboard.item rnd36 s).
Proof. unfold fecha_ok. simpl. split; reflexivity. Qed.

Lemma update_keeps_field (A : Type) (g : Invitado -> A)
      (k : jsstring) (f : Invitado -> Invitado) (l : list Invitado) :
  (forall r, g (f r) = g r) ->
  map g (map (fun item => if str_eqb (id item) k then f item else item) l)
  = map g l.
Proof.
  intros H. rewrite map_map. apply map_ext. intros r.
  destruct (str_eqb (id r) k); [apply H | reflexivity].
Qed.

(** C4.  On a collection where every record has a null entry date
    exactly when its entry flag is false, each operation stores a
    collection with the same property, and this is how.  [addInvitado],
    when the name is not blank, stores the collection followed by its
    new record, whose flag is false and whose date is null.  [generarQR]
    writes the code of the records with the invitee's identifier and
    leaves the flag and the date of every record as they are.
    [marcarIngreso] gives every stored record with the invitee's
    identifier the flag true and the date of the call, both at once, and
    leaves the other records as they are; the scanner's [marcar] does
    the same for the record the page shows, and shows it with the flag
    true and that date. *)
Theorem operations_preserve_fecha_ok (b : Browser) :
  Forall fecha_ok (loadLocal b) ->
  (forall rnd36 s,
      Forall fecha_ok (loadLocal (fst (Dashboard.addInvitado rnd36 b s)))
      /\ ingresado (Dashboard.item rnd36 s) = false
      /\ fecha_ingreso (Dashboard.item rnd36 s) = None
      /\ (trim (Dashboard.newNombre s) <> [] ->
          loadLocal (fst (Dashboard.addInvitado rnd36 b s))
          = loadLocal b ++ [Dashboard.item rnd36 s]))
  /\ (forall inv s,
        Forall fecha_ok (loadLocal (fst (Dashboard.generarQR inv b s)))
        /\ map ingresado (loadLocal (fst (Dashboard.generarQR inv b s)))
           = map ingresado (loadLocal b)
        /\ map fecha_ingreso (loadLocal (fst (Dashboard.generarQR inv b s)))
           = map fecha_ingreso (loadLocal b)
        /\ (forall i r,
              nth_error (loadLocal b) i = Some r -> id r = id inv ->
              nth_error (loadLocal (fst (Dashboard.generarQR inv b s))) i
              = Some (with_qr_code (JSON_stringify [(js "id", id inv)]) r)))
  /\ (forall inv now s,
        Forall fecha_ok
          (loadLocal (fst (Dashboard.marcarIngreso inv now b s)))
        /\ (forall i r,
              nth_error (loadLocal b) i = Some r -> id r = id inv ->
              exists r',
                nth_error
                  (loadLocal (fst (Dashboard.marcarIngreso inv now b s))) i
                = Some r'
                /\ ingresado r' = true /\ fecha_ingreso r' = Some now)
        /\ (forall i r,
              nth_error (loadLocal b) i = Some r -> id r <> id inv ->
              nth_error
                (loadLocal (fst (Dashboard.marcarIngreso inv now b s))) i
              = Some r))
  /\ (forall now sc,
        Forall fecha_ok (loadLocal (fst (Scanner.marcar now b sc)))
        /\ (forall inv, Scanner.invData sc = Some inv ->
              (exists r,
                  Scanner.invData (snd (Scanner.marcar now b sc)) = Some r
                  /\ fecha_ok r
                  /\ ingresado r = true /\ fecha_ingreso r = Some now)
              /\ (forall i r,
                    nth_error (loadLocal b) i = Some r -> id r = id inv ->
                    exists r',
                      nth_error (loadLocal (fst (Scanner.marcar now b sc))) i
                      = Some r'
                      /\ ingresado r' = true /\ fecha_ingreso r' = Some now)
              /\ (forall i r,
                    nth_error (loadLocal b) i = Some r -> id r <> id inv ->
                    nth_error (loadLocal (fst (Scanner.marcar now b sc))) i
                    = Some r))).
Proof.
  intros H. split; [|split; [|split]].
  - intros rnd36 s. split; [|split; [reflexivity|split; [reflexivity|]]].
    + unfold Dashboard.addInvitado.
      destruct (negb (truthy_str (trim (Dashboard.newNombre s)))); simpl.
      * exact H.
      * rewrite loadLocal_saveLocal. apply Forall_app. split; [exact H|].
        constructor; [apply fecha_ok_item | constructor].
    + intros Hn. unfold Dashboard.addInvitado.
      rewrite (proj2 (truthy_str_true _) Hn). simpl.
      apply loadLocal_saveLocal.
  - intros inv s. simpl. rewrite loadLocal_saveLocal.
    split; [|split; [|split]].
    + apply update_Forall; [|exact H].
      intros r. apply fecha_ok_with_qr_code.
    + apply update_keeps_field. reflexivity.
    + apply update_keeps_field. reflexivity.
    + intros i r Hi Hid.
      exact (update_target (id inv)
               (with_qr_code (JSON_stringify [(js "id", id inv)]))
               _ _ _ Hi Hid).
  - intros inv now s. simpl. rewrite loadLocal_saveLocal.
    split; [|split].
    + apply update_Forall; [|exact H].
      intros r _. apply fecha_ok_with_ingreso.
    + intros i r Hi Hid. exists (with_ingreso now r).
      split; [|split; reflexivity].
      exact (update_target (id inv) (with_ingreso now) _ _ _ Hi Hid).
    + intros i r Hi Hid.
      exact (update_other (id inv) (with_ingreso now) _ _ _ Hi Hid).
  - intros now sc. unfold Scanner.marcar.
    destruct (Scanner.invData sc) as [inv|] eqn:E; simpl.
    + rewrite loadLocal_saveLocal. split.
      * apply update_Forall; [|exact H].
        intros r _. apply fecha_ok_with_ingreso.
      * intros inv' Hinv. inversion Hinv; subst inv'. split; [|split].
        -- eexists. split; [reflexivity|].
           split; [apply fecha_ok_with_ingreso | split; reflexivity].
        -- intros i r Hi Hid. exists (with_ingreso now r).
           split; [|split; reflexivity].
           exact (update_target (id inv) (with_ingreso now) _ _ _ Hi Hid).
        -- intros i r Hi Hid.
           exact (update_other (id inv) (with_ingreso now) _ _ _ Hi Hid).
    + split; [exact H|]. intros inv' Hinv. discriminate Hinv.
Qed.

(** The seeded collection of a first visit satisfies the hypothesis, and
    marking its first record stores it with the flag and the date. *)
Lemma operations_preserve_fecha_ok_witness :
  let b := seed (js "0.abc1234xyz") (js "0.k3v9q0a1m") fresh in
  let inv := Build_Invitado (js "id_abc1234") [] INVITADO [] false None [] in
  let now := js "2024-05-01T20:15:00.000Z" in
  Forall fecha_ok (loadLocal b)
  /\ Forall fecha_ok
       (loadLocal (fst (Dashboard.marcarIngreso inv now b Dashboard.initial)))
  /\ exists r',
       nth_error
         (loadLocal (fst (Dashboard.marcarIngreso inv now b Dashboard.initial)))
         0
       = Some r'
       /\ ingresado r' = true /\ fecha_ingreso r' = Some now.
Proof.
  cbv zeta.
  assert (H : Forall fecha_ok
                (loadLocal (seed (js "0.abc1234xyz") (js "0.k3v9q0a1m") fresh))).
  { repeat constructor; discriminate. }
  split; [exact H|].
  pose proof (proj1 (proj2 (proj2
                (operations_preserve_fecha_ok
                   (seed (js "0.abc1234xyz") (js "0.k3v9q0a1m") fresh) H)))
                (Build_Invitado (js "id_abc1234") [] INVITADO [] false None [])
                (js "2024-05-01T20:15:00.000Z") Dashboard.initial)
    as (Hf & Hset & _).
  split; [exact Hf|].
  exact (Hset 0%nat _ eq_refl eq_refl).
Defined.

(* ================================================================== *)
(** ** Generating the code *)
(* ================================================================== *)

Lemma generarQR_stored_payload
      (inv : Invitado) (b : Browser) (s : Dashboard.state) (r : Invitado) :
  In r (loadLocal (fst (Dashboard.generarQR inv b s))) ->
  id r = id inv ->
  qr_code r = JSON_stringify [(js "id", id inv)].
Proof.
  intros Hr Hid. simpl in Hr. rewrite loadLocal_saveLocal in Hr.
  apply update_in in Hr. destruct Hr as [r0 [_ ->]].
  destruct (str_eqb (id r0) (id inv)) eqn:E.
  - reflexivity.
  - apply str_eqb_neq in E. contradiction.
Qed.

(** C5.  [generarQR] run twice on an invitee leaves what one run leaves,
    in the browser and on the page; the payload stored in the records
    with the invitee's identifier is the text of [{ id }]; any record
    with the same identifier gives the same result; and the identifiers
    of the stored records are what they were. *)
Theorem generarQR_idempotent
  (inv : Invitado) (b : Browser) (s : Dashboard.state) :
  let once := Dashboard.generarQR inv b s in
  Dashboard.generarQR inv (fst once) (snd once) = once
  /\ (forall r, In r (loadLocal (fst once)) -> id r = id inv ->
        qr_code r = JSON_stringify [(js "id", id inv)])
  /\ (forall inv', id inv' = id inv ->
        Dashboard.generarQR inv' b s = once)
  /\ map id (loadLocal (fst once)) = map id (loadLocal b).
Proof.
  cbv zeta. split; [|split; [|split]].
  - unfold Dashboard.generarQR, Dashboard.fetchInvitados,
      Dashboard.setInvitados. simpl. rewrite !loadLocal_saveLocal.
    rewrite update_twice by reflexivity. reflexivity.
  - intros r. apply generarQR_stored_payload.
  - intros inv' E. unfold Dashboard.generarQR. rewrite E. reflexivity.
  - simpl. rewrite loadLocal_saveLocal, map_map. apply map_ext.
    intros r. destruct (str_eqb (id r) (id inv)); reflexivity.
Qed.

(* ================================================================== *)
(** ** Adding an invitee *)
(* ================================================================== *)

(** C9.  When the typed name is empty or made of white space only,
    [addInvitado] returns at once: the browser (collection, session and
    route) and the page, its inputs included, are what they were. *)
Theorem addInvitado_blank_noop
  (rnd36 : jsstring) (b : Browser) (s : Dashboard.state) :
  forallb is_js_space (Dashboard.newNombre s) = true ->
  Dashboard.addInvitado rnd36 b s = (b, s).
Proof.
  intros H. unfold Dashboard.addInvitado.
  rewrite (trim_blank _ H). reflexivity.
Qed.

(** A name of two spaces and a tab. *)
Lemma addInvitado_blank_noop_witness :
  let s := Dashboard.setNewNombre [32; 32; 9]%N Dashboard.initial in
  let b := seed (js "0.abc1234xyz") (js "0.k3v9q0a1m") fresh in
  Dashboard.addInvitado (js "0.zzz") b s = (b, s).
Proof.
  apply (addInvitado_blank_noop (js "0.zzz")
           (seed (js "0.abc1234xyz") (js "0.k3v9q0a1m") fresh)
           (Dashboard.setNewNombre [32; 32; 9]%N Dashboard.initial)).
  reflexivity.
Defined.

(* ================================================================== *)
(** ** What the updates leave alone *)
(* ================================================================== *)

Lemma with_qr_code_frame (payload : jsstring) (r : Invitado) :
  id (with_qr_code payload r) = id r
  /\ nombre_completo (with_qr_code payload r) = nombre_completo r
  /\ tipo_invitado (with_qr_code payload r) = tipo_invitado r
  /\ ingresado (with_qr_code payload r) = ingresado r
  /\ fecha_ingreso (with_qr_code payload r) = fecha_ingreso r
  /\ dni (with_qr_code payload r) = dni r.
Proof. repeat split. Qed.

Lemma with_ingreso_frame (now : jsstring) (r : Invitado) :
  id (with_ingreso now r) = id r
  /\ nombre_completo (with_ingreso now r) = nombre_completo r
  /\ tipo_invitado (with_ingreso now r) = tipo_invitado r
  /\ qr_code (with_ingreso now r) = qr_code r
  /\ dni (with_ingreso now r) = dni r.
Proof. repeat split. Qed.

Lemma frame_of_update (k : jsstring) (f : Invitado -> Invitado)
      (b : Browser) :
  frame_of k b
    (saveLocal
       (map (fun item => if str_eqb (id item) k then f item else item)
            (loadLocal b)) b).
Proof.
  unfold frame_of. rewrite loadLocal_saveLocal.
  split; [apply update_length|].
  split; [reflexivity|]. split; [reflexivity|].
  split; [intros i r; apply update_other | apply update_absent].
Qed.

(** C10.  [generarQR], [marcarIngreso] and the scanner's [marcar] change
    only the records whose identifier is the target's: every record with
    another identifier stays as it is, field by field, at its position;
    when no stored record has the target's identifier the stored
    collection is what it was; a record that is changed keeps every
    field but the ones the operation writes. *)
Theorem update_frame (inv : Invitado) (now : jsstring) (b : Browser) :
  (forall s, frame_of (id inv) b (fst (Dashboard.generarQR inv b s)))
  /\ (forall s,
        frame_of (id inv) b (fst (Dashboard.marcarIngreso inv now b s)))
  /\ (forall sc, Scanner.invData sc = Some inv ->
        frame_of (id inv) b (fst (Scanner.marcar now b sc)))
  /\ (forall sc, Scanner.invData sc = None ->
        Scanner.marcar now b sc = (b, sc))
  /\ (forall s i r, nth_error (loadLocal b) i = Some r -> id r = id inv ->
        nth_error (loadLocal (fst (Dashboard.generarQR inv b s))) i
        = Some (with_qr_code (JSON_stringify [(js "id", id inv)]) r)
        /\ nth_error (loadLocal (fst (Dashboard.marcarIngreso inv now b s))) i
           = Some (with_ingreso now r))
  /\ (forall payload r,
        id (with_qr_code payload r) = id r
        /\ nombre_completo (with_qr_code payload r) = nombre_completo r
        /\ tipo_invitado (with_qr_code payload r) = tipo_invitado r
        /\ ingresado (with_qr_code payload r) = ingresado r
        /\ fecha_ingreso (with_qr_code payload r) = fecha_ingreso r
        /\ dni (with_qr_code payload r) = dni r)
  /\ (forall r,
        id (with_ingreso now r) = id r
        /\ nombre_completo (with_ingreso now r) = nombre_completo r
        /\ tipo_invitado (with_ingreso now r) = tipo_invitado r
        /\ qr_code (with_ingreso now r) = qr_code r
        /\ dni (with_ingreso now r) = dni r).
Proof.
  split; [|split; [|split; [|split; [|split; [|split]]]]].
  - intros s. apply frame_of_update.
  - intros s. apply frame_of_update.
  - intros sc H. unfold Scanner.marcar. rewrite H. apply frame_of_update.
  - intros sc H. unfold Scanner.marcar. rewrite H. reflexivity.
  - intros s i r H Hid. simpl. rewrite !loadLocal_saveLocal.
    split; apply update_target; assumption.
  - intros payload r. apply with_qr_code_frame.
  - intros r. apply with_ingreso_frame.
Qed.

(* ================================================================== *)
(** ** Identifiers of added invitees *)
(* ================================================================== *)

Lemma submit_accepted (a : alta) (b : Browser) (s : Dashboard.state) :
  accepted a = true ->
  loadLocal (fst (submit a b s)) = loadLocal b ++ [alta_item a].
Proof.
  intros H. unfold submit, Dashboard.addInvitado.
  change (Dashboard.newNombre (fill a s)) with (alta_nombre a).
  unfold accepted in H. rewrite H. reflexivity.
Qed.

Lemma submit_rejected (a : alta) (b : Browser) (s : Dashboard.state) :
  accepted a = false -> fst (submit a b s) = b.
Proof.
  intros H. unfold submit, Dashboard.addInvitado.
  change (Dashboard.newNombre (fill a s)) with (alta_nombre a).
  unfold accepted in H. rewrite H. reflexivity.
Qed.

Lemma submit_all_stored (l : list alta) :
  forall b s,
    loadLocal (fst (submit_all l b s))
    = loadLocal b ++ map alta_item (filter accepted l).
Proof.
  induction l as [|a l IH]; intros b s; simpl.
  - rewrite app_nil_r. reflexivity.
  - destruct (submit a b s) as [b' s'] eqn:E.
    rewrite IH.
    assert (Eb : b' = fst (submit a b s)) by (rewrite E; reflexivity).
    destruct (accepted a) eqn:Ha.
    + rewrite Eb, submit_accepted by exact Ha.
      rewrite <- app_assoc. reflexivity.
    + rewrite Eb, submit_rejected by exact Ha. reflexivity.
Qed.

(** C2, as the code has it.  [addInvitado] gives the new record the
    identifier [id_] followed by the units 2 to 8 of the text of the
    draw, and compares it with nothing.  In a run of submissions whose
    identifiers so derived are pairwise distinct and absent from the
    starting collection, every accepted submission appends one record,
    and its identifier differs from that of every record already
    stored. *)
Theorem submit_all_fresh_ids
  (calls : list alta) (b : Browser) (s : Dashboard.state) :
  NoDup (map alta_id (filter accepted calls)) ->
  (forall a, In a (filter accepted calls) ->
             ~ In (alta_id a) (map id (loadLocal b))) ->
  forall pre a post, calls = pre ++ a :: post -> accepted a = true ->
    let before := submit_all pre b s in
    let after := submit a (fst before) (snd before) in
    loadLocal (fst after) = loadLocal (fst before) ++ [alta_item a]
    /\ id (alta_item a) = js "id_" ++ slice 2 9 (alta_rnd a)
    /\ Forall (fun r => id r <> id (alta_item a)) (loadLocal (fst before)).
Proof.
  intros Hnd Hfresh pre a post -> Ha. cbv zeta.
  split; [apply submit_accepted; exact Ha|]. split; [reflexivity|].
  apply Forall_forall.
  intros r Hr E. rewrite submit_all_stored in Hr.
  rewrite filter_app in Hnd, Hfresh. simpl in Hnd, Hfresh.
  rewrite Ha in Hnd, Hfresh.
  apply in_app_or in Hr. destruct Hr as [Hr | Hr].
  - apply (Hfresh a).
    + apply in_or_app. right. left. reflexivity.
    + change (alta_id a) with (id (alta_item a)). rewrite <- E.
      apply in_map. exact Hr.
  - rewrite map_app in Hnd. simpl in Hnd.
    apply NoDup_remove_2 in Hnd. apply Hnd.
    apply in_or_app. left.
    apply in_map_iff in Hr. destruct Hr as [a' [<- Ha']].
    change (alta_id a) with (id (alta_item a)). rewrite <- E.
    change (id (alta_item a')) with (alta_id a').
    apply in_map. exact Ha'.
Qed.

(** Two submissions with different draws after a first visit. *)
Lemma submit_all_fresh_ids_witness :
  let b := seed (js "0.k3v9q0a1m") (js "0.zx81c5p0q") fresh in
  let ana := Build_alta (js "Ana Ruiz") INVITADO [] (js "0.abc1234xyz") in
  let luis := Build_alta (js "Luis Paz") PROMOCIONADO (js "41") (js "0.7hq2m0c9d") in
  Forall (fun r => id r <> id (alta_item luis))
         (loadLocal (fst (submit_all [ana] b Dashboard.initial))).
Proof.
  cbv zeta.
  refine (proj2 (proj2
    (@submit_all_fresh_ids
       [Build_alta (js "Ana Ruiz") INVITADO [] (js "0.abc1234xyz");
        Build_alta (js "Luis Paz") PROMOCIONADO (js "41") (js "0.7hq2m0c9d")]
       (seed (js "0.k3v9q0a1m") (js "0.zx81c5p0q") fresh)
       Dashboard.initial _ _
       [Build_alta (js "Ana Ruiz") INVITADO [] (js "0.abc1234xyz")]
       (Build_alta (js "Luis Paz") PROMOCIONADO (js "41") (js "0.7hq2m0c9d"))
       [] eq_refl eq_refl))).
  - repeat constructor; simpl; intuition discriminate.
  - intros a [<- | [<- | []]]; simpl; intuition discriminate.
Defined.

(** C2, as stated, fails.  After a first visit, two invitees are added;
    the two draws differ, and share their first seven digits: the second
    record gets the identifier the first one has. *)
Lemma addInvitado_id_collision :
  let b0 := seed (js "0.k3v9q0a1m") (js "0.zx81c5p0q") fresh in
  let s1 := Dashboard.setNewNombre (js "Ana Ruiz") Dashboard.initial in
  let r1 := Dashboard.addInvitado (js "0.abc1234xyz") b0 s1 in
  let s2 := Dashboard.setNewNombre (js "Luis Paz") (snd r1) in
  let r2 := Dashboard.addInvitado (js "0.abc1234qrs") (fst r1) s2 in
  loadLocal (fst r2)
  = loadLocal (fst r1) ++ [Dashboard.item (js "0.abc1234qrs") s2]
  /\ In (id (Dashboard.item (js "0.abc1234qrs") s2))
        (map id (loadLocal (fst r1)))
  /\ map id (loadLocal (fst r2))
     = [js "id_k3v9q0a"; js "id_zx81c5p"; js "id_abc1234"; js "id_abc1234"].
Proof.
  cbv zeta. split; [reflexivity|]. split; [|reflexivity].
  simpl. right. right. left. reflexivity.
Qed.

(* ================================================================== *)
(** ** What every stored record has *)
(* ================================================================== *)

Lemma stored_ok_sample (rnd1 rnd2 : jsstring) :
  Forall stored_ok (sample rnd1 rnd2).
Proof.
  repeat constructor; try apply uid_nonempty; simpl; discriminate.
Qed.

Lemma stored_ok_seed (rnd1 rnd2 : jsstring) (b : Browser) :
  Forall stored_ok (loadLocal b) ->
  Forall stored_ok (loadLocal (seed rnd1 rnd2 b)).
Proof.
  intros H. unfold seed.
  destruct (Nat.eqb (List.length (loadLocal b)) 0); [|exact H].
  rewrite loadLocal_saveLocal. apply stored_ok_sample.
Qed.

Lemma stored_ok_addInvitado (rnd36 : jsstring) (b : Browser)
      (s : Dashboard.state) :
  Forall stored_ok (loadLocal b) ->
  Forall stored_ok (loadLocal (fst (Dashboard.addInvitado rnd36 b s))).
Proof.
  intros H. unfold Dashboard.addInvitado.
  destruct (truthy_str (trim (Dashboard.newNombre s))) eqn:E; simpl.
  - rewrite loadLocal_saveLocal. apply Forall_app. split; [exact H|].
    constructor; [|constructor]. split; [apply uid_nonempty|]. split.
    + simpl. apply truthy_str_true. exact E.
    + left. reflexivity.
  - exact H.
Qed.

Lemma stored_ok_generarQR (inv : Invitado) (l : list Invitado) :
  Forall stored_ok l ->
  Forall stored_ok
    (map (fun item =>
            if str_eqb (id item) (id inv)
            then with_qr_code (JSON_stringify [(js "id", id inv)]) item
            else item) l).
Proof.
  intros H. apply Forall_map. eapply Forall_impl; [|exact H].
  intros r (H1 & H2 & H3). cbv beta.
  destruct (str_eqb (id r) (id inv)) eqn:E; [|repeat split; assumption].
  apply str_eqb_eq in E.
  split; [exact H1|]. split; [exact H2|]. right. simpl. rewrite E.
  reflexivity.
Qed.

Lemma stored_ok_marcar (inv : Invitado) (now : jsstring)
      (l : list Invitado) :
  Forall stored_ok l ->
  Forall stored_ok
    (map (fun item =>
            if str_eqb (id item) (id inv)
            then with_ingreso now item else item) l).
Proof.
  intros H. apply update_Forall; [|exact H]. intros r Hr. exact Hr.
Qed.

(** The invariant of the stored collection. *)
Lemma reachable_stored_ok (b : Browser) :
  reachable b -> Forall stored_ok (loadLocal b).
Proof.
  induction 1 as [rnd1 rnd2 | b rnd1 rnd2 _ IH | b r _ IH | b _ IH
                 | b s _ IH | b _ IH | b s inv _ IH | b s inv now _ IH
                 | b s rnd36 _ IH | b s now _ IH].
  - apply stored_ok_seed. constructor.
  - apply stored_ok_seed. exact IH.
  - exact IH.
  - unfold Protected. destruct (negb (truthy (session_user b))); exact IH.
  - unfold Login.handle.
    destruct (str_eqb (Login.u s) ADMIN_USER && str_eqb (Login.p s) ADMIN_PASS);
      exact IH.
  - exact IH.
  - simpl. rewrite loadLocal_saveLocal. apply stored_ok_generarQR. exact IH.
  - simpl. rewrite loadLocal_saveLocal. apply stored_ok_marcar. exact IH.
  - apply stored_ok_addInvitado. exact IH.
  - unfold Scanner.marcar. destruct (Scanner.invData s); simpl; [|exact IH].
    rewrite loadLocal_saveLocal. apply stored_ok_marcar. exact IH.
Qed.

Lemma listed_stored_ok (l : list Invitado) :
  listed l -> Forall stored_ok l.
Proof.
  intros [|b Hb]; [constructor | apply reachable_stored_ok; exact Hb].
Qed.

(* ================================================================== *)
(** ** Search *)
(* ================================================================== *)

Lemma toLowerCase_nil {E : Engine} : toLowerCase [] = [].
Proof. exact (toLowerCase_latin1 [] eq_refl). Qed.

Lemma byDni_spec (filter d : jsstring) :
  (if truthy_str filter then str_eqb d filter else true) = true
  <-> filter = [] \/ d = filter.
Proof.
  destruct filter as [|c t]; simpl.
  - split; auto.
  - change (str_eqb d (c :: t) = true <-> c :: t = [] \/ d = c :: t).
    rewrite str_eqb_eq.
    split; [auto | intros [H | H]; [discriminate | auto]].
Qed.

(** The predicate of the filter, guard by guard: a name or a national
    id that is empty matches no query, not even the empty one. *)
Lemma search_pred_exact {E : Engine} (s : Dashboard.state) (r : Invitado) :
  Dashboard.search_pred s r = true
  <-> ((nombre_completo r <> []
        /\ contains (toLowerCase (nombre_completo r))
                    (toLowerCase (Dashboard.q s)))
       \/ (dni r <> [] /\ contains (dni r) (Dashboard.q s)))
      /\ (Dashboard.dniQ s = [] \/ dni r = Dashboard.dniQ s).
Proof.
  unfold Dashboard.search_pred. cbv zeta.
  rewrite andb_true_iff, orb_true_iff, !andb_true_iff, byDni_spec.
  rewrite !truthy_str_true, <- !includes_contains. reflexivity.
Qed.

(** On a record with a name, the two guards of the filter change
    nothing: the predicate is the specification's. *)
Lemma search_pred_spec {E : Engine} (s : Dashboard.state) (r : Invitado) :
  nombre_completo r <> [] ->
  Dashboard.search_pred s r = true
  <-> spec_search (Dashboard.q s) (Dashboard.dniQ s) r.
Proof.
  intros Hn. rewrite search_pred_exact. unfold spec_search. split.
  - intros [[[_ H] | [_ H]] H2]; auto.
  - intros [[H | H] H2]; (split; [|exact H2]); [left; auto|].
    destruct (dni r) as [|c t] eqn:Ed.
    + left. split; [exact Hn|].
      apply includes_contains in H. apply includes_empty_hay in H.
      rewrite H, toLowerCase_nil.
      apply includes_contains. apply includes_empty_needle.
    + right. split; [discriminate | exact H].
Qed.

Lemma search_In {E : Engine} (s : Dashboard.state) (r : Invitado) :
  In r (Dashboard.search s)
  <-> In r (Dashboard.invitados s) /\ Dashboard.search_pred s r = true.
Proof. unfold Dashboard.search. apply filter_In. Qed.




(* ================================================================== *)
(** ** From the generated code back to the invitee *)
(* ================================================================== *)

Lemma find_id_some (k : jsstring) (l : list Invitado) :
  (exists i, In i l /\ id i = k) ->
  exists m, find (fun i => strict_eq (id i) (JStr k)) l = Some m
            /\ In m l /\ id m = k.
Proof.
  intros [i [Hi Hk]].
  destruct (find (fun i => strict_eq (id i) (JStr k)) l) as [m|] eqn:E.
  - exists m. split; [reflexivity|].
    apply find_some in E. destruct E as [Hm E]. split; [exact Hm|].
    apply str_eqb_eq. exact E.
  - exfalso. pose proof (find_none _ _ E i Hi) as Hf. simpl in Hf.
    rewrite Hk, str_eqb_refl in Hf. discriminate.
Qed.

(** Scanning the text of [{ id: k }], for a non-empty [k] that some
    record of the scanner's list has: the first such record is shown. *)
Lemma handleScan_stringify (k : jsstring) (sc : Scanner.state) :
  k <> [] ->
  (exists i, In i (Scanner.invitados sc) /\ id i = k) ->
  exists m,
    find (fun i => strict_eq (id i) (JStr k)) (Scanner.invitados sc) = Some m
    /\ In m (Scanner.invitados sc) /\ id m = k
    /\ Scanner.handleScan (Scanner.Text (JSON_stringify [(js "id", k)])) sc
       = Scanner.setMessage []
           (Scanner.setInvData (Some m)
              (Scanner.setResult (JSON_stringify [(js "id", k)]) sc)).
Proof.
  intros Hk Hex. destruct (find_id_some k (Scanner.invitados sc) Hex)
    as [m [Hfind [Hm Hid]]].
  exists m. repeat split; try assumption.
  unfold Scanner.handleScan.
  change (Scanner.truthy_data (Scanner.Text (JSON_stringify [(js "id", k)])))
    with true.
  change (Scanner.raw_of (Scanner.Text (JSON_stringify [(js "id", k)])))
    with (JSON_stringify [(js "id", k)]).
  cbv beta iota zeta delta [negb]. rewrite JSON_parse_stringify.
  change (get_prop (JObj [(js "id", JStr k)]) (js "id")) with (Some (JStr k)).
  simpl truthy. simpl truthy_opt.
  rewrite (proj2 (truthy_str_true k) Hk). simpl andb. cbv iota.
  unfold Scanner.findInvitado.
  change (Scanner.invitados
            (Scanner.setResult (JSON_stringify [(js "id", k)]) sc))
    with (Scanner.invitados sc).
  rewrite Hfind. reflexivity.
Qed.

(** C6, as the code has it.  In a browser the program reaches:
    [generarQR] on a stored invitee stores a record with the invitee's
    identifier and the text of [{ id }] as its code; the code of every
    stored record that has one parses, to an object whose one member
    [id] is the record's identifier; scanning that code against any list
    that holds a record with the identifier reports a match, with the
    first record of the list that has the identifier.  So the code just
    generated, scanned on a scanner page opened afterwards, matches the
    first stored record with the invitee's identifier: the invitee's
    own, with its code, whenever no other stored record has the
    identifier. *)
Theorem generated_payload_scans (b : Browser) :
  reachable b ->
  (forall s inv, In inv (loadLocal b) ->
     exists r, In r (loadLocal (fst (Dashboard.generarQR inv b s)))
               /\ id r = id inv
               /\ qr_code r = JSON_stringify [(js "id", id inv)]
               /\ qr_code r <> [])
  /\ Forall (fun r =>
       qr_code r <> [] ->
       JSON_parse (qr_code r) = Some (JObj [(js "id", JStr (id r))])
       /\ get_prop (JObj [(js "id", JStr (id r))]) (js "id")
          = Some (JStr (id r))
       /\ forall sc,
            (exists i, In i (Scanner.invitados sc) /\ id i = id r) ->
            exists m,
              find (fun i => strict_eq (id i) (JStr (id r)))
                   (Scanner.invitados sc) = Some m
              /\ In m (Scanner.invitados sc) /\ id m = id r
              /\ Scanner.invData (Scanner.handleScan (Scanner.Text (qr_code r)) sc) = Some m
              /\ Scanner.message (Scanner.handleScan (Scanner.Text (qr_code r)) sc) = []
              /\ report (Scanner.handleScan (Scanner.Text (qr_code r)) sc)
                 = Some (Matched m))
     (loadLocal b)
  /\ (forall s inv, In inv (loadLocal b) ->
        let b' := fst (Dashboard.generarQR inv b s) in
        exists m,
          find (fun i => strict_eq (id i) (JStr (id inv))) (loadLocal b')
          = Some m
          /\ id m = id inv
          /\ report (Scanner.handleScan
                        (Scanner.Text (JSON_stringify [(js "id", id inv)]))
                        (Scanner.mount b'))
             = Some (Matched m)
          /\ ((forall r, In r (loadLocal b) -> id r = id inv -> r = inv) ->
              m = with_qr_code (JSON_stringify [(js "id", id inv)]) inv)).
Proof.
  intros Hb.
  pose proof (reachable_stored_ok b Hb) as Hok.
  rewrite Forall_forall in Hok.
  assert (Hscan : forall (k : jsstring) sc, k <> [] ->
             (exists i, In i (Scanner.invitados sc) /\ id i = k) ->
             exists m,
               find (fun i => strict_eq (id i) (JStr k))
                    (Scanner.invitados sc) = Some m
               /\ In m (Scanner.invitados sc) /\ id m = k
               /\ Scanner.invData
                    (Scanner.handleScan (Scanner.Text (JSON_stringify [(js "id", k)])) sc)
                  = Some m
               /\ Scanner.message
                    (Scanner.handleScan (Scanner.Text (JSON_stringify [(js "id", k)])) sc)
                  = []
               /\ report (Scanner.handleScan
                            (Scanner.Text (JSON_stringify [(js "id", k)])) sc)
                  = Some (Matched m)).
  { intros k sc Hk Hex.
    destruct (handleScan_stringify k sc Hk Hex) as [m (Hf & Hm & Hid & E)].
    exists m. rewrite E. repeat split; assumption. }
  assert (Hstored : forall s inv, In inv (loadLocal b) ->
             In (with_qr_code (JSON_stringify [(js "id", id inv)]) inv)
                (loadLocal (fst (Dashboard.generarQR inv b s)))).
  { intros s inv Hinv. simpl. rewrite loadLocal_saveLocal.
    apply in_map_iff. exists inv. rewrite str_eqb_refl. auto. }
  split; [|split].
  - intros s inv Hinv.
    exists (with_qr_code (JSON_stringify [(js "id", id inv)]) inv).
    split; [apply Hstored; exact Hinv|]. repeat split. discriminate.
  - apply Forall_forall. intros r Hr Hq.
    destruct (Hok r Hr) as (Hid & _ & [Hnil | Hpay]); [contradiction|].
    rewrite Hpay. split; [apply JSON_parse_stringify|].
    split; [reflexivity|]. intros sc. apply Hscan. exact Hid.
  - intros s inv Hinv. cbv zeta.
    destruct (Hscan (id inv)
                (Scanner.mount (fst (Dashboard.generarQR inv b s)))
                (proj1 (Hok inv Hinv)))
      as [m (Hfind & Hm & Hid & _ & _ & Hrep)].
    + eexists. split; [exact (Hstored s inv Hinv) | reflexivity].
    + exists m. split; [exact Hfind|]. split; [exact Hid|].
      split; [exact Hrep|]. intros Huniq.
      change (Scanner.invitados
                (Scanner.mount (fst (Dashboard.generarQR inv b s))))
        with (loadLocal (fst (Dashboard.generarQR inv b s))) in Hm.
      simpl in Hm. rewrite loadLocal_saveLocal in Hm.
      apply update_in in Hm. destruct Hm as [r0 [Hr0 E]].
      destruct (str_eqb (id r0) (id inv)) eqn:Eid.
      * apply str_eqb_eq in Eid.
        rewrite (Huniq r0 Hr0 Eid) in E. exact E.
      * apply str_eqb_neq in Eid. exfalso. apply Eid.
        rewrite <- E. exact Hid.
Qed.

(** The first sample record, its code generated and scanned. *)
Lemma generated_payload_scans_witness :
  let b := seed (js "0.k3v9q0a1m") (js "0.zx81c5p0q") fresh in
  let inv := Build_Invitado (js "id_k3v9q0a") NOMBRE_1 PROMOCIONADO []
                            false None (js "00000001") in
  let b' := fst (Dashboard.generarQR inv b Dashboard.initial) in
  exists m,
    id m = js "id_k3v9q0a"
    /\ report (Scanner.handleScan (Scanner.Text (jsq "{'id':'id_k3v9q0a'}"))
                                  (Scanner.mount b'))
       = Some (Matched m).
Proof.
  cbv zeta.
  destruct (proj2 (proj2
    (generated_payload_scans
       (seed (js "0.k3v9q0a1m") (js "0.zx81c5p0q") fresh)
       (reach_load (js "0.k3v9q0a1m") (js "0.zx81c5p0q"))))
    Dashboard.initial
    (Build_Invitado (js "id_k3v9q0a") NOMBRE_1 PROMOCIONADO []
                    false None (js "00000001"))
    (or_introl eq_refl)) as [m (_ & Hid & Hrep & _)].
  exists m. split; [exact Hid | exact Hrep].
Defined.

(** C6, as stated, fails.  Two invitees were added with draws that
    share their first seven digits, so that both have the identifier
    [id_abc1234]; a code is generated for the second, Luis Paz.  His
    stored code, scanned, matches the first record with the identifier:
    Ana Ruiz, not the invitee the code was generated for. *)
Lemma generated_payload_matches_namesake :
  let b0 := seed (js "0.k3v9q0a1m") (js "0.zx81c5p0q") fresh in
  let s1 := Dashboard.setNewNombre (js "Ana Ruiz") Dashboard.initial in
  let r1 := Dashboard.addInvitado (js "0.abc1234xyz") b0 s1 in
  let s2 := Dashboard.setNewNombre (js "Luis Paz") (snd r1) in
  let r2 := Dashboard.addInvitado (js "0.abc1234qrs") (fst r1) s2 in
  let luis := Dashboard.item (js "0.abc1234qrs") s2 in
  let b' := fst (Dashboard.generarQR luis (fst r2) (snd r2)) in
  let luis' := with_qr_code (JSON_stringify [(js "id", id luis)]) luis in
  reachable (fst r2)
  /\ In luis (loadLocal (fst r2))
  /\ In luis' (loadLocal b')
  /\ nombre_completo luis' = js "Luis Paz"
  /\ exists m,
       report (Scanner.handleScan (Scanner.Text (qr_code luis'))
                                  (Scanner.mount b'))
       = Some (Matched m)
       /\ id m = id luis'
       /\ nombre_completo m = js "Ana Ruiz"
       /\ m <> luis'.
Proof.
  cbv zeta. split.
  { apply reach_addInvitado. apply reach_addInvitado. apply reach_load. }
  split; [vm_compute; tauto|]. split; [vm_compute; tauto|].
  split; [reflexivity|].
  eexists. split; [vm_compute; reflexivity|].
  split; [reflexivity|]. split; [reflexivity|].
  intros H. apply (f_equal nombre_completo) in H. vm_compute in H.
  discriminate H.
Qed.

(* ================================================================== *)
(** ** What a scan reports *)
(* ================================================================== *)

Lemma get_prop_truthy (v : json) (k : jsstring) (x : json) :
  get_prop v k = Some x -> truthy v = true.
Proof. destruct v; simpl; try discriminate. reflexivity. Qed.

Lemma report_invalid (sc : Scanner.state) :
  report (Scanner.setMessage Scanner.QR_INVALIDO sc) = Some Malformed.
Proof. reflexivity. Qed.

Lemma truthy_data_true (d : Scanner.data) :
  d <> Scanner.Text [] -> Scanner.truthy_data d = true.
Proof.
  destruct d as [[|c s]|text json]; simpl; intros H;
    [contradiction | reflexivity | reflexivity].
Qed.

Lemma handleScan_unparsed (d : Scanner.data) (sc : Scanner.state) :
  d <> Scanner.Text [] -> JSON_parse (Scanner.raw_of d) = None ->
  Scanner.handleScan d sc
  = Scanner.setMessage Scanner.QR_INVALIDO
      (Scanner.setResult (Scanner.raw_of d) sc).
Proof.
  intros Hd Hp. unfold Scanner.handleScan.
  rewrite (truthy_data_true d Hd). cbv zeta. rewrite Hp. reflexivity.
Qed.

Lemma handleScan_no_id (d : Scanner.data) (sc : Scanner.state) (v : json) :
  d <> Scanner.Text [] -> JSON_parse (Scanner.raw_of d) = Some v ->
  truthy_opt (get_prop v (js "id")) = false ->
  Scanner.handleScan d sc
  = Scanner.setMessage Scanner.QR_INVALIDO
      (Scanner.setResult (Scanner.raw_of d) sc).
Proof.
  intros Hd Hp Hf. unfold Scanner.handleScan.
  rewrite (truthy_data_true d Hd). cbv zeta.
  rewrite Hp, Hf, andb_false_r. reflexivity.
Qed.

Lemma handleScan_id (d : Scanner.data) (sc : Scanner.state)
      (v idv : json) :
  d <> Scanner.Text [] -> JSON_parse (Scanner.raw_of d) = Some v ->
  get_prop v (js "id") = Some idv -> truthy idv = true ->
  Scanner.handleScan d sc
  = Scanner.findInvitado idv (Scanner.setResult (Scanner.raw_of d) sc).
Proof.
  intros Hd Hp Hg Ht. unfold Scanner.handleScan.
  rewrite (truthy_data_true d Hd). cbv zeta. rewrite Hp, Hg.
  rewrite (get_prop_truthy v (js "id") idv Hg). simpl. rewrite Ht.
  reflexivity.
Qed.

Lemma findInvitado_keeps (idv : json) (sc : Scanner.state) :
  Scanner.result (Scanner.findInvitado idv sc) = Scanner.result sc
  /\ Scanner.invitados (Scanner.findInvitado idv sc) = Scanner.invitados sc.
Proof.
  unfold Scanner.findInvitado.
  destruct (find (fun i => strict_eq (id i) idv) (Scanner.invitados sc));
    split; reflexivity.
Qed.

(** C3, as the code has it.  On the empty string [handleScan] returns
    at once, whatever the page shows: nothing is recorded, and the
    result, the message, the record and the list stay as they were.
    Whatever else [handleScan] receives, its payload (the string itself,
    or the text of a reader result) is recorded as the raw result, the
    list is left alone, and then: when the payload does not parse, or parses to a
    value whose [id] is missing or falsy (null, false, zero, the empty
    string), the scanner reports a malformed code and keeps the record
    it was showing; when [id] is truthy and no record of the list has
    it, the scanner reports that the invitee is not registered and shows
    no record; when a record has it, the scanner shows the first such
    record and no message.  So the report is the one of the
    specification for every payload but those whose [id] is present and
    falsy. *)
Theorem handleScan_reports (d : Scanner.data) (sc : Scanner.state) :
  Scanner.handleScan (Scanner.Text []) sc = sc
  /\
  (d <> Scanner.Text [] ->
  let payload := Scanner.raw_of d in
  let sc' := Scanner.handleScan d sc in
  let malformed :=
    report sc' = Some Malformed
    /\ Scanner.message sc' = Scanner.QR_INVALIDO
    /\ Scanner.invData sc' = Scanner.invData sc in
  Scanner.result sc' = Some payload
  /\ Scanner.invitados sc' = Scanner.invitados sc
  /\ (JSON_parse payload = None -> malformed)
  /\ (forall v, JSON_parse payload = Some v ->
                truthy_opt (get_prop v (js "id")) = false -> malformed)
  /\ (forall v idv,
        JSON_parse payload = Some v -> get_prop v (js "id") = Some idv ->
        truthy idv = true ->
        find (fun i => strict_eq (id i) idv) (Scanner.invitados sc) = None ->
        report sc' = Some NotRegistered
        /\ Scanner.message sc' = Scanner.NO_REGISTRADO
        /\ Scanner.invData sc' = None)
  /\ (forall v idv r,
        JSON_parse payload = Some v -> get_prop v (js "id") = Some idv ->
        truthy idv = true ->
        find (fun i => strict_eq (id i) idv) (Scanner.invitados sc) = Some r ->
        report sc' = Some (Matched r)
        /\ Scanner.message sc' = []
        /\ Scanner.invData sc' = Some r)
  /\ ((forall v idv,
         JSON_parse payload = Some v -> get_prop v (js "id") = Some idv ->
         truthy idv = true) ->
      report sc' = Some (spec_scan payload (Scanner.invitados sc)))).
Proof.
  split; [reflexivity|].
  intros Hd. cbv zeta.
  assert (Hkeep : Scanner.result (Scanner.handleScan d sc)
                  = Some (Scanner.raw_of d)
                  /\ Scanner.invitados (Scanner.handleScan d sc)
                     = Scanner.invitados sc).
  { destruct (JSON_parse (Scanner.raw_of d)) as [v|] eqn:Ep;
      [|rewrite handleScan_unparsed by assumption; split; reflexivity].
    destruct (truthy_opt (get_prop v (js "id"))) eqn:Et;
      [|rewrite (handleScan_no_id d sc v Hd Ep Et); split; reflexivity].
    destruct (get_prop v (js "id")) as [idv|] eqn:Eg; [|discriminate Et].
    rewrite (handleScan_id d sc v idv Hd Ep Eg Et).
    destruct (findInvitado_keeps idv
                (Scanner.setResult (Scanner.raw_of d) sc)) as [-> ->].
    split; reflexivity. }
  split; [apply Hkeep|]. split; [apply Hkeep|].
  split; [|split; [|split; [|split]]].
  - intros Hp. rewrite handleScan_unparsed by assumption.
    repeat split.
  - intros v Hp Hf. rewrite (handleScan_no_id d sc v Hd Hp Hf).
    repeat split.
  - intros v idv Hp Hg Ht Hf. rewrite (handleScan_id d sc v idv Hd Hp Hg Ht).
    unfold Scanner.findInvitado.
    change (Scanner.invitados (Scanner.setResult (Scanner.raw_of d) sc))
      with (Scanner.invitados sc).
    rewrite Hf. repeat split.
  - intros v idv r Hp Hg Ht Hf.
    rewrite (handleScan_id d sc v idv Hd Hp Hg Ht).
    unfold Scanner.findInvitado.
    change (Scanner.invitados (Scanner.setResult (Scanner.raw_of d) sc))
      with (Scanner.invitados sc).
    rewrite Hf. repeat split.
  - intros Hall. unfold spec_scan.
    destruct (JSON_parse (Scanner.raw_of d)) as [v|] eqn:Ep;
      [|rewrite handleScan_unparsed by assumption; reflexivity].
    destruct (get_prop v (js "id")) as [idv|] eqn:Eg.
    + rewrite (handleScan_id d sc v idv Hd Ep Eg (Hall v idv eq_refl Eg)).
      unfold Scanner.findInvitado.
      change (Scanner.invitados (Scanner.setResult (Scanner.raw_of d) sc))
        with (Scanner.invitados sc).
      destruct (find (fun i => strict_eq (id i) idv) (Scanner.invitados sc));
        reflexivity.
    + rewrite (handleScan_no_id d sc v Hd Ep); [reflexivity|].
      rewrite Eg. reflexivity.
Qed.

(** The three scans of the specification, after a first visit: a code
    with a stored identifier, a code with an unknown one, and a text
    that is not JSON. *)
Lemma handleScan_reports_witness :
  let sc := Scanner.mount (seed (js "0.abc1234xyz") (js "0.zx81c5p0q") fresh) in
  (exists r, id r = js "id_abc1234"
             /\ report (Scanner.handleScan
                          (Scanner.Text (jsq "{'id':'id_abc1234'}")) sc)
                = Some (Matched r))
  /\ report (Scanner.handleScan (Scanner.Text (jsq "{'id':'nope'}")) sc)
     = Some NotRegistered
  /\ report (Scanner.handleScan (Scanner.Text (js "hola")) sc)
     = Some Malformed.
Proof.
  cbv zeta.
  pose (sc := Scanner.mount (seed (js "0.abc1234xyz") (js "0.zx81c5p0q") fresh)).
  split; [|split].
  - destruct (proj2 (handleScan_reports
                         (Scanner.Text (jsq "{'id':'id_abc1234'}")) sc)
                ltac:(discriminate)) as (_ & _ & _ & _ & _ & H & _).
    eexists. split; [|
      exact (proj1 (H (JObj [(js "id", JStr (js "id_abc1234"))])
                      (JStr (js "id_abc1234")) _
                      eq_refl eq_refl eq_refl eq_refl))].
    reflexivity.
  - destruct (proj2 (handleScan_reports
                         (Scanner.Text (jsq "{'id':'nope'}")) sc)
                ltac:(discriminate)) as (_ & _ & _ & _ & H & _).
    exact (proj1 (H (JObj [(js "id", JStr (js "nope"))]) (JStr (js "nope"))
                    eq_refl eq_refl eq_refl eq_refl)).
  - destruct (proj2 (handleScan_reports (Scanner.Text (js "hola")) sc)
                ltac:(discriminate)) as (_ & _ & H & _).
    exact (proj1 (H eq_refl)).
Defined.

(** C3, as stated, fails.  The payload [{ id: empty string }] parses,
    has an identifier field, and no record of the list has the empty
    identifier: in the specification's words the invitee is not
    registered, and the scanner reports a malformed code.  And
    [handleScan] on the empty string, which does not parse, returns at
    once and leaves the page as it was: the page just opened still
    reports nothing. *)
Lemma handleScan_falsy_identifier :
  let sc := Scanner.mount (seed (js "0.abc1234xyz") (js "0.zx81c5p0q") fresh) in
  JSON_parse (jsq "{'id':''}") = Some (JObj [(js "id", JStr [])])
  /\ spec_scan (jsq "{'id':''}") (Scanner.invitados sc) = NotRegistered
  /\ report (Scanner.handleScan (Scanner.Text (jsq "{'id':''}")) sc)
     = Some Malformed
  /\ spec_scan [] (Scanner.invitados sc) = Malformed
  /\ Scanner.handleScan (Scanner.Text []) sc = sc
  /\ report (Scanner.handleScan (Scanner.Text []) sc) = None.
Proof. cbv zeta. repeat split. Qed.

(* ================================================================== *)
(** ** Login *)
(* ================================================================== *)

Lemma credentials_eqb (u p : jsstring) :
  str_eqb u ADMIN_USER && str_eqb p ADMIN_PASS = true
  <-> u = ADMIN_USER /\ p = ADMIN_PASS.
Proof. rewrite andb_true_iff, !str_eqb_eq. reflexivity. Qed.

Lemma session_user_admin (b : Browser) :
  sessionStorage b = Some (JSON_stringify [(js "username", ADMIN_USER)]) ->
  session_user b = JObj [(js "username", JStr ADMIN_USER)].
Proof. intros H. unfold session_user. rewrite H. reflexivity. Qed.

(** C8.  With the user name [jesusandia124] and the password [andia124],
    both compared unit by unit, the login page stores the text of
    [{ username }] as the session entry, an object with that one member,
    and goes to the dashboard, where [Protected] lets the view stand;
    [login] of [useAuth] stores the same entry and returns true.  With
    any other pair the page changes nothing in the browser and shows
    its error, so that a browser without a session entry still has none
    and [Protected] sends a protected view back to the login; [login]
    returns false and changes nothing. *)
Theorem login_exact (b : Browser) (l : Login.state) (user : Auth.state) :
  let marker := JSON_stringify [(js "username", ADMIN_USER)] in
  let ok := Login.u l = ADMIN_USER /\ Login.p l = ADMIN_PASS in
  (ok ->
     let b' := fst (Login.handle b l) in
     sessionStorage b' = Some marker
     /\ marker = jsq "{'username':'jesusandia124'}"
     /\ JSON_parse marker = Some (JObj [(js "username", JStr ADMIN_USER)])
     /\ localStorage b' = localStorage b
     /\ location b' = RDashboard
     /\ Protected b' = b'
     /\ Auth.login (Login.u l) (Login.p l) b user
        = (true, set_session (Some marker) b, Some ADMIN_USER))
  /\ (~ ok ->
        fst (Login.handle b l) = b
        /\ Login.error (snd (Login.handle b l)) = js "Credenciales incorrectas"
        /\ Auth.login (Login.u l) (Login.p l) b user = (false, b, user)
        /\ (sessionStorage b = None ->
            forall r, location (Protected (navigate r b)) = RLogin)).
Proof.
  cbv zeta. split.
  - intros [Hu Hp]. unfold Login.handle, Auth.login.
    rewrite (proj2 (credentials_eqb (Login.u l) (Login.p l)) (conj Hu Hp)).
    rewrite Hu. simpl fst.
    split; [reflexivity|]. split; [reflexivity|].
    split; [apply JSON_parse_stringify|].
    split; [reflexivity|]. split; [reflexivity|]. split; [|reflexivity].
    unfold Protected. rewrite session_user_admin by reflexivity.
    reflexivity.
  - intros Hno. unfold Login.handle, Auth.login.
    destruct (str_eqb (Login.u l) ADMIN_USER && str_eqb (Login.p l) ADMIN_PASS)
      eqn:E.
    + apply credentials_eqb in E. contradiction.
    + split; [reflexivity|]. split; [reflexivity|]. split; [reflexivity|].
      intros Hs r. unfold Protected, session_user. simpl sessionStorage.
      rewrite Hs. reflexivity.
Qed.

(* ================================================================== *)
(** ** Seeding *)
(* ================================================================== *)

(** X1.  The seeding at module load never touches a collection that has
    a record; on an empty collection it stores the two sample records;
    in both cases the collection has a record afterwards, so that a
    second load, whatever its draws, changes nothing.  The session entry
    and the route are left alone. *)
Theorem seed_settles (rnd1 rnd2 rnd3 rnd4 : jsstring) (b : Browser) :
  (loadLocal b <> [] -> seed rnd1 rnd2 b = b)
  /\ (loadLocal b = [] ->
      loadLocal (seed rnd1 rnd2 b) = sample rnd1 rnd2)
  /\ loadLocal (seed rnd1 rnd2 b) <> []
  /\ seed rnd3 rnd4 (seed rnd1 rnd2 b) = seed rnd1 rnd2 b
  /\ sessionStorage (seed rnd1 rnd2 b) = sessionStorage b
  /\ location (seed rnd1 rnd2 b) = location b.
Proof.
  destruct (loadLocal b) as [|r l] eqn:E.
  - assert (H : seed rnd1 rnd2 b = saveLocal (sample rnd1 rnd2) b)
      by (unfold seed; rewrite E; reflexivity).
    rewrite H. split; [intros Hne; contradiction|].
    split; [reflexivity|]. split; [discriminate|].
    split; [reflexivity | split; reflexivity].
  - assert (H : seed rnd1 rnd2 b = b)
      by (unfold seed; rewrite E; reflexivity).
    rewrite H. split; [reflexivity|]. split; [discriminate|].
    split; [rewrite E; discriminate|].
    split; [unfold seed; rewrite E; reflexivity | split; reflexivity].
Qed.

(* ================================================================== *)
(** ** Identifiers *)
(* ================================================================== *)

(** X2.  An identifier is [id_] followed by at most seven units, so it
    has from three to ten units; it is the bare [id_] when the text of
    the draw has at most two units, and has all ten when the text has
    nine or more.  Two draws give the same identifier exactly when their
    texts agree on the units 2 to 8. *)
Theorem uid_shape (rnd36 rnd36' : jsstring) :
  uid rnd36 = js "id_" ++ firstn 7 (skipn 2 rnd36)
  /\ (3 <= List.length (uid rnd36) <= 10)%nat
  /\ ((List.length rnd36 <= 2)%nat -> uid rnd36 = js "id_")
  /\ ((9 <= List.length rnd36)%nat -> List.length (uid rnd36) = 10%nat)
  /\ (uid rnd36 = uid rnd36' <-> slice 2 9 rnd36 = slice 2 9 rnd36').
Proof.
  unfold uid, slice. change (9 - 2)%nat with 7%nat.
  split; [reflexivity|].
  assert (L : List.length (js "id_" ++ firstn 7 (skipn 2 rnd36))
              = (3 + Nat.min 7 (List.length rnd36 - 2))%nat).
  { rewrite length_app, length_firstn, length_skipn. reflexivity. }
  split; [rewrite L; lia|]. split; [|split].
  - intros H. rewrite skipn_all2 by exact H. reflexivity.
  - intros H. rewrite L. lia.
  - split; [apply app_inv_head | intros ->; reflexivity].
Qed.

(* ================================================================== *)
(** ** The session gate and the routes *)
(* ================================================================== *)

Lemma session_user_navigate (r : route) (b : Browser) :
  session_user (navigate r b) = session_user b.
Proof. reflexivity. Qed.

Lemma session_user_username (b : Browser) (name : jsstring) :
  sessionStorage b = Some (JSON_stringify [(js "username", name)]) ->
  session_user b = JObj [(js "username", JStr name)].
Proof.
  intros H. unfold session_user. rewrite H.
  change (str_or (JSON_stringify [(js "username", name)]) (js "null"))
    with (JSON_stringify [(js "username", name)]).
  rewrite JSON_parse_stringify. reflexivity.
Qed.

Lemma session_user_absent (b : Browser) :
  sessionStorage b = None -> session_user b = JNull.
Proof. intros H. unfold session_user. rewrite H. reflexivity. Qed.

Lemma session_user_unparsed (b : Browser) (t : jsstring) :
  sessionStorage b = Some t -> JSON_parse t = None ->
  session_user b = JNull.
Proof.
  intros H Hp. unfold session_user. rewrite H.
  destruct t as [|c t]; [reflexivity|].
  change (str_or (c :: t) (js "null")) with (c :: t).
  rewrite Hp. reflexivity.
Qed.

(** X3.  [Protected] looks only at whether the session entry parses to
    a truthy value: the entry of any user name lets the view stand;
    without an entry, or with one that is not JSON, the route becomes
    the login.  It never writes to either storage. *)
Theorem Protected_gate (b : Browser) :
  (forall name,
      sessionStorage b = Some (JSON_stringify [(js "username", name)]) ->
      Protected b = b)
  /\ (sessionStorage b = None -> Protected b = navigate RLogin b)
  /\ (forall t, sessionStorage b = Some t -> JSON_parse t = None ->
                Protected b = navigate RLogin b)
  /\ localStorage (Protected b) = localStorage b
  /\ sessionStorage (Protected b) = sessionStorage b.
Proof.
  split; [|split; [|split]].
  - intros name H. unfold Protected.
    rewrite (session_user_username b name H). reflexivity.
  - intros H. unfold Protected. rewrite (session_user_absent b H).
    reflexivity.
  - intros t H Hp. unfold Protected.
    rewrite (session_user_unparsed b t H Hp). reflexivity.
  - unfold Protected. destruct (negb (truthy (session_user b)));
      split; reflexivity.
Qed.

Lemma page_effect_with_user (b : Browser) :
  truthy (session_user b) = true ->
  page_effect b
  = match location b with RLogin => navigate RDashboard b | _ => b end.
Proof.
  intros E. unfold page_effect, Login.mount, Protected. rewrite E.
  destruct (location b); reflexivity.
Qed.

Lemma page_effect_without_user (b : Browser) :
  truthy (session_user b) = false ->
  page_effect b
  = match location b with RLogin => b | _ => navigate RLogin b end.
Proof.
  intros E. unfold page_effect, Login.mount, Protected. rewrite E.
  destruct (location b); reflexivity.
Qed.

(** X4.  The effect of the current page, the login page's or
    [Protected]'s, settles at once: run again on the route it led to, it
    changes nothing.  The route it leads to is the login exactly when
    there is no session user, and the storages are left alone. *)
Theorem page_effect_settles (b : Browser) :
  page_effect (page_effect b) = page_effect b
  /\ (truthy (session_user b) = true -> location (page_effect b) <> RLogin)
  /\ (truthy (session_user b) = false -> location (page_effect b) = RLogin)
  /\ localStorage (page_effect b) = localStorage b
  /\ sessionStorage (page_effect b) = sessionStorage b.
Proof.
  destruct (truthy (session_user b)) eqn:E.
  - rewrite (page_effect_with_user b E).
    destruct (location b) eqn:L.
    + split; [rewrite page_effect_with_user by exact E; reflexivity|].
      split; [intros _; discriminate|].
      split; [intros H; discriminate H | split; reflexivity].
    + split; [rewrite page_effect_with_user, L by exact E; reflexivity|].
      split; [intros _; rewrite L; discriminate|].
      split; [intros H; discriminate H | split; reflexivity].
    + split; [rewrite page_effect_with_user, L by exact E; reflexivity|].
      split; [intros _; rewrite L; discriminate|].
      split; [intros H; discriminate H | split; reflexivity].
    + split; [rewrite page_effect_with_user, L by exact E; reflexivity|].
      split; [intros _; rewrite L; discriminate|].
      split; [intros H; discriminate H | split; reflexivity].
  - rewrite (page_effect_without_user b E).
    destruct (location b) eqn:L.
    + split; [rewrite page_effect_without_user, L by exact E; reflexivity|].
      split; [intros H; discriminate H|].
      split; [intros _; exact L | split; reflexivity].
    + split; [rewrite page_effect_without_user by exact E; reflexivity|].
      split; [intros H; discriminate H|].
      split; [intros _; reflexivity | split; reflexivity].
    + split; [rewrite page_effect_without_user by exact E; reflexivity|].
      split; [intros H; discriminate H|].
      split; [intros _; reflexivity | split; reflexivity].
    + split; [rewrite page_effect_without_user by exact E; reflexivity|].
      split; [intros H; discriminate H|].
      split; [intros _; reflexivity | split; reflexivity].
Qed.

(** X5.  After [logout], of the top bar or of [useAuth], there is no
    session entry, whatever it held: every route leads to the login,
    the login page stays, and the stored collection is what it was. *)
Theorem logout_revokes (b : Browser) (user : Auth.state) :
  sessionStorage (logout b) = None
  /\ location (logout b) = RLogin
  /\ localStorage (logout b) = localStorage b
  /\ page_effect (logout b) = logout b
  /\ (forall r, location (page_effect (navigate r (logout b))) = RLogin)
  /\ (forall r,
        location (page_effect (navigate r (fst (Auth.logout b user))))
        = RLogin)
  /\ snd (Auth.logout b user) = None.
Proof.
  split; [reflexivity|]. split; [reflexivity|]. split; [reflexivity|].
  split; [reflexivity|].
  split; [intros [| | |]; reflexivity|].
  split; [intros [| | |]; reflexivity | reflexivity].
Qed.

(* ================================================================== *)
(** ** What [trim] keeps *)
(* ================================================================== *)

Lemma trim_start_split (s : jsstring) :
  exists pre, s = pre ++ trim_start s /\ forallb is_js_space pre = true.
Proof.
  induction s as [|c s [pre [E H]]]; simpl.
  - exists []. split; reflexivity.
  - destruct (is_js_space c) eqn:Hc.
    + exists (c :: pre). simpl. rewrite Hc, H. split; [congruence | reflexivity].
    + exists []. split; reflexivity.
Qed.

Lemma trim_start_fixed (s : jsstring) :
  (forall c t, s = c :: t -> is_js_space c = false) -> trim_start s = s.
Proof.
  destruct s as [|c t]; [reflexivity|]. intros H. simpl.
  rewrite (H c t eq_refl). reflexivity.
Qed.

Lemma forallb_rev (A : Type) (f : A -> bool) (l : list A) :
  forallb f l = true -> forallb f (rev l) = true.
Proof.
  rewrite !forallb_forall. intros H x Hx. apply H. apply in_rev. exact Hx.
Qed.

(** [trim] cuts white space, and only white space, off both ends. *)
Lemma trim_split (s : jsstring) :
  exists pre post,
    s = pre ++ trim s ++ post
    /\ forallb is_js_space pre = true
    /\ forallb is_js_space post = true.
Proof.
  destruct (trim_start_split s) as [pre [E1 H1]].
  destruct (trim_start_split (rev (trim_start s))) as [pre2 [E2 H2]].
  exists pre, (rev pre2). unfold trim. split; [|split].
  - rewrite <- rev_app_distr, <- E2, rev_involutive. exact E1.
  - exact H1.
  - apply forallb_rev. exact H2.
Qed.

Lemma trim_last (s t : jsstring) (c : N) :
  trim s = t ++ [c] -> is_js_space c = false.
Proof.
  unfold trim. intros H.
  apply (f_equal (@rev N)) in H.
  rewrite rev_involutive, rev_app_distr in H. simpl in H.
  exact (trim_start_head _ _ _ H).
Qed.

Lemma trim_first (s t : jsstring) (c : N) :
  trim s = c :: t -> is_js_space c = false.
Proof.
  intros H.
  destruct (trim_start_split (rev (trim_start s))) as [pre2 [E2 _]].
  assert (E : trim_start s = trim s ++ rev pre2).
  { unfold trim. rewrite <- rev_app_distr, <- E2, rev_involutive.
    reflexivity. }
  rewrite H in E. simpl in E. exact (trim_start_head _ _ _ E).
Qed.

Lemma trim_idempotent (s : jsstring) : trim (trim s) = trim s.
Proof.
  remember (trim s) as w eqn:Ew. symmetry in Ew.
  unfold trim.
  rewrite (trim_start_fixed w) by (intros c t E; rewrite E in Ew;
                                   exact (trim_first _ _ _ Ew)).
  rewrite (trim_start_fixed (rev w)).
  - apply rev_involutive.
  - intros c t E. apply (f_equal (@rev N)) in E.
    rewrite rev_involutive in E. simpl in E. rewrite E in Ew.
    exact (trim_last _ _ _ Ew).
Qed.

Lemma not_blank_trim (s : jsstring) :
  forallb is_js_space s = false -> trim s <> [].
Proof.
  intros H E. apply trim_nil_iff in E. congruence.
Qed.

(* ================================================================== *)
(** ** An accepted invitee *)
(* ================================================================== *)

(** X6.  When the typed name has a unit that is not white space,
    [addInvitado] appends one record to the stored collection and
    touches no other.  The record's name is the typed name with white
    space, and nothing else, cut off both ends: it is not empty and
    neither starts nor ends with white space.  Its national id is the
    text of the national-id input, its type the selected one, and it has
    no code and no entry.  The name and national-id inputs are cleared,
    the query and the selected type stay, and the page lists the stored
    collection. *)
Theorem addInvitado_accepted
  (rnd36 : jsstring) (b : Browser) (s : Dashboard.state) :
  forallb is_js_space (Dashboard.newNombre s) = false ->
  let r := Dashboard.addInvitado rnd36 b s in
  let it := Dashboard.item rnd36 s in
  loadLocal (fst r) = loadLocal b ++ [it]
  /\ (exists pre post,
        Dashboard.newNombre s = pre ++ nombre_completo it ++ post
        /\ forallb is_js_space pre = true
        /\ forallb is_js_space post = true)
  /\ nombre_completo it <> []
  /\ is_js_space (hd 0%N (nombre_completo it)) = false
  /\ is_js_space (last (nombre_completo it) 0%N) = false
  /\ dni it = Dashboard.dniQ s
  /\ tipo_invitado it = Dashboard.newTipo s
  /\ qr_code it = [] /\ ingresado it = false /\ fecha_ingreso it = None
  /\ Dashboard.newNombre (snd r) = []
  /\ Dashboard.dniQ (snd r) = []
  /\ Dashboard.q (snd r) = Dashboard.q s
  /\ Dashboard.newTipo (snd r) = Dashboard.newTipo s
  /\ Dashboard.invitados (snd r) = loadLocal (fst r).
Proof.
  intros H. cbv zeta.
  pose proof (not_blank_trim _ H) as Hne.
  unfold Dashboard.addInvitado.
  rewrite (proj2 (truthy_str_true _) Hne). cbv beta iota delta [negb].
  split; [reflexivity|]. split; [apply trim_split|].
  split; [exact Hne|]. simpl nombre_completo.
  split; [|split].
  - destruct (trim (Dashboard.newNombre s)) as [|c t] eqn:E;
      [contradiction|]. exact (trim_first _ _ _ E).
  - destruct (exists_last Hne) as [t [c E]]. rewrite E, last_last.
    exact (trim_last _ _ _ E).
  - split; [apply str_or_empty|]. repeat split.
Qed.

(** The name typed with spaces around it. *)
Lemma addInvitado_accepted_witness :
  let s := Dashboard.setDniQ (js "41")
             (Dashboard.setNewNombre (js "  Ana Ruiz ") Dashboard.initial) in
  let b := seed (js "0.k3v9q0a1m") (js "0.zx81c5p0q") fresh in
  loadLocal (fst (Dashboard.addInvitado (js "0.abc1234xyz") b s))
  = loadLocal b
    ++ [Build_Invitado (js "id_abc1234") (js "Ana Ruiz") INVITADO []
                       false None (js "41")].
Proof.
  cbv zeta.
  exact (proj1
    (addInvitado_accepted (js "0.abc1234xyz")
       (seed (js "0.k3v9q0a1m") (js "0.zx81c5p0q") fresh)
       (Dashboard.setDniQ (js "41")
          (Dashboard.setNewNombre (js "  Ana Ruiz ") Dashboard.initial))
       eq_refl)).
Defined.

(** X7.  After an accepted [addInvitado] the page searches with the
    query it had and no national-id filter, the input being cleared:
    whatever the engine, the new record is listed exactly when its name
    in lower case contains the query in lower case, or its national id
    contains the query as typed; with the empty query it is always
    listed. *)
Theorem added_record_is_found {E : Engine}
  (rnd36 : jsstring) (b : Browser) (s : Dashboard.state) :
  forallb is_js_space (Dashboard.newNombre s) = false ->
  let s' := snd (Dashboard.addInvitado rnd36 b s) in
  let it := Dashboard.item rnd36 s in
  (In it (Dashboard.search s')
   <-> contains (toLowerCase (nombre_completo it))
                (toLowerCase (Dashboard.q s))
       \/ contains (dni it) (Dashboard.q s))
  /\ (Dashboard.q s = [] -> In it (Dashboard.search s')).
Proof.
  intros H. cbv zeta.
  pose proof (not_blank_trim _ H) as Hne.
  assert (Hiff : In (Dashboard.item rnd36 s)
                    (Dashboard.search (snd (Dashboard.addInvitado rnd36 b s)))
                 <-> contains (toLowerCase (nombre_completo (Dashboard.item rnd36 s)))
                              (toLowerCase (Dashboard.q s))
                     \/ contains (dni (Dashboard.item rnd36 s)) (Dashboard.q s)).
  { rewrite search_In,
      (search_pred_spec (snd (Dashboard.addInvitado rnd36 b s))
                        (Dashboard.item rnd36 s) Hne).
    unfold Dashboard.addInvitado.
    rewrite (proj2 (truthy_str_true _) Hne). cbv beta iota delta [negb].
    unfold spec_search. simpl.
    rewrite loadLocal_saveLocal. split.
    - intros [_ [Hm _]]. exact Hm.
    - intros Hm. split; [apply in_or_app; right; left; reflexivity|].
      split; [exact Hm | left; reflexivity]. }
  split; [exact Hiff|].
  intros Hq. apply Hiff. left. rewrite Hq, toLowerCase_nil.
  apply includes_contains. apply includes_empty_needle.
Qed.

(** A name that holds the query, in another case. *)
Lemma added_record_is_found_witness :
  let s := Dashboard.setQ (js "RUIZ")
             (Dashboard.setNewNombre (js "Ana Ruiz") Dashboard.initial) in
  let b := seed (js "0.k3v9q0a1m") (js "0.zx81c5p0q") fresh in
  In (Dashboard.item (js "0.abc1234xyz") s)
     (@Dashboard.search latin1_engine
        (snd (Dashboard.addInvitado (js "0.abc1234xyz") b s))).
Proof.
  cbv zeta.
  apply (proj1
    (@added_record_is_found latin1_engine (js "0.abc1234xyz")
       (seed (js "0.k3v9q0a1m") (js "0.zx81c5p0q") fresh)
       (Dashboard.setQ (js "RUIZ")
          (Dashboard.setNewNombre (js "Ana Ruiz") Dashboard.initial))
       eq_refl)).
  left. apply includes_contains. reflexivity.
Defined.

(* ================================================================== *)
(** ** The search, its edges *)
(* ================================================================== *)

Lemma filter_all (A : Type) (f : A -> bool) (l : list A) :
  (forall x, In x l -> f x = true) -> filter f l = l.
Proof.
  induction l as [|a l IH]; intros H; simpl; [reflexivity|].
  rewrite (H a (or_introl eq_refl)). f_equal. apply IH.
  intros x Hx. apply H. right. exact Hx.
Qed.

Lemma filter_length_le (A : Type) (f : A -> bool) (l : list A) :
  (List.length (filter f l) <= List.length l)%nat.
Proof.
  induction l as [|a l IH]; simpl; [lia|].
  destruct (f a); simpl; lia.
Qed.

(** X8.  On a list the dashboard holds: with the empty query and no
    filter the search returns the whole list, in its order; with a
    filter, every record returned has that very national id; and the
    search never returns more records than the list has. *)
Theorem search_edges {E : Engine} (s : Dashboard.state) :
  listed (Dashboard.invitados s) ->
  (Dashboard.q s = [] -> Dashboard.dniQ s = [] ->
   Dashboard.search s = Dashboard.invitados s)
  /\ (Dashboard.dniQ s <> [] ->
      Forall (fun r => dni r = Dashboard.dniQ s) (Dashboard.search s))
  /\ (List.length (Dashboard.search s)
      <= List.length (Dashboard.invitados s))%nat.
Proof.
  intros Hl. pose proof (listed_stored_ok _ Hl) as Hok.
  rewrite Forall_forall in Hok.
  split; [|split].
  - intros Hq Hd. unfold Dashboard.search. apply filter_all.
    intros r Hr. apply search_pred_spec.
    + exact (proj1 (proj2 (Hok r Hr))).
    + rewrite Hq, Hd. split; [left | left; reflexivity].
      rewrite toLowerCase_nil.
      apply includes_contains. apply includes_empty_needle.
  - intros Hd. apply Forall_forall. intros r Hr.
    unfold Dashboard.search in Hr. apply filter_In in Hr.
    destruct Hr as [Hr Hp].
    apply (search_pred_spec s r (proj1 (proj2 (Hok r (Hr))))) in Hp.
    destruct Hp as [_ [Hp | Hp]]; [contradiction | exact Hp].
  - apply filter_length_le.
Qed.

(** The dashboard as it opens after a first visit. *)
Lemma search_edges_witness :
  let b := seed (js "0.k3v9q0a1m") (js "0.zx81c5p0q") fresh in
  let s := Dashboard.fetchInvitados b Dashboard.initial in
  @Dashboard.search latin1_engine s
  = sample (js "0.k3v9q0a1m") (js "0.zx81c5p0q").
Proof.
  cbv zeta.
  exact (proj1
    (@search_edges latin1_engine
       (Dashboard.fetchInvitados
          (seed (js "0.k3v9q0a1m") (js "0.zx81c5p0q") fresh)
          Dashboard.initial)
       (listed_fetch _ (reach_load (js "0.k3v9q0a1m") (js "0.zx81c5p0q"))))
    eq_refl eq_refl).
Defined.

(* ================================================================== *)
(** ** The dashboard and the stored collection *)
(* ================================================================== *)

Lemma dash_step_in_sync (x y : Browser * Dashboard.state) :
  dash_step x y ->
  Dashboard.invitados (snd x) = loadLocal (fst x) ->
  Dashboard.invitados (snd y) = loadLocal (fst y).
Proof.
  intros H. destruct H as [b s v | b s v | b s v | b s t | b s inv
                          | b s inv now | b s rnd36]; simpl; intros E;
    try exact E; try reflexivity.
  unfold Dashboard.addInvitado.
  destruct (negb (truthy_str (trim (Dashboard.newNombre s))));
    [exact E | reflexivity].
Qed.

Lemma dash_step_reachable (x y : Browser * Dashboard.state) :
  dash_step x y -> reachable (fst x) -> reachable (fst y).
Proof.
  intros H. destruct H as [b s v | b s v | b s v | b s t | b s inv
                          | b s inv now | b s rnd36]; simpl; intros R;
    try exact R.
  - exact (reach_generarQR b s inv R).
  - exact (reach_marcarIngreso b s inv now R).
  - exact (reach_addInvitado b s rnd36 R).
Qed.

(** X9.  While the dashboard is open, whatever is typed and whichever
    buttons are used, the list the page holds is the stored collection,
    the searches show stored records only, and a browser the program
    can reach stays one. *)
Theorem dashboard_shows_stored {E : Engine}
  (b0 : Browser) (x : Browser * Dashboard.state) :
  dash_run b0 x ->
  Dashboard.invitados (snd x) = loadLocal (fst x)
  /\ incl (Dashboard.search (snd x)) (loadLocal (fst x))
  /\ (reachable b0 -> reachable (fst x)).
Proof.
  intros H.
  assert (Hs : Dashboard.invitados (snd x) = loadLocal (fst x)
               /\ (reachable b0 -> reachable (fst x))).
  { induction H as [|x y _ [IH1 IH2] Hstep].
    - split; [reflexivity | auto].
    - split; [exact (dash_step_in_sync x y Hstep IH1)|].
      intros R. exact (dash_step_reachable x y Hstep (IH2 R)). }
  destruct Hs as [Hs Hr]. split; [exact Hs|]. split; [|exact Hr].
  intros r Hin. unfold Dashboard.search in Hin.
  apply filter_In in Hin. rewrite <- Hs. exact (proj1 Hin).
Qed.

(** A name is typed and added, then a code is generated. *)
Lemma dashboard_shows_stored_witness :
  let b0 := seed (js "0.k3v9q0a1m") (js "0.zx81c5p0q") fresh in
  let s0 := Dashboard.fetchInvitados b0 Dashboard.initial in
  let s1 := Dashboard.setNewNombre (js "Ana Ruiz") s0 in
  let x2 := Dashboard.addInvitado (js "0.abc1234xyz") b0 s1 in
  let x3 := Dashboard.generarQR (Dashboard.item (js "0.abc1234xyz") s1)
                                (fst x2) (snd x2) in
  Dashboard.invitados (snd x3) = loadLocal (fst x3).
Proof.
  cbv zeta.
  refine (proj1 (@dashboard_shows_stored latin1_engine
                   (seed (js "0.k3v9q0a1m") (js "0.zx81c5p0q") fresh) _ _)).
  eapply dash_next; [eapply dash_next; [eapply dash_next; [apply dash_open|]|]|].
  - apply dash_setNewNombre with (v := js "Ana Ruiz").
  - apply dash_addInvitado with (rnd36 := js "0.abc1234xyz").
  - exact (dash_generarQR _ _ _).
Defined.

(* ================================================================== *)
(** ** The scanner, after a mark and through the reader *)
(* ================================================================== *)

(** X10.  After [marcar] on a matched invitee whose identifier is not
    empty and is stored: the page shows the record as entered, so the
    button is no longer offered, and its list is the stored collection;
    the invitee's code scanned again is matched with a record that is
    entered, with the date of the mark, so the button is not offered
    either. *)
Theorem marcar_then_rescan
  (now : jsstring) (b : Browser) (sc : Scanner.state) (inv : Invitado) :
  Scanner.invData sc = Some inv ->
  id inv <> [] ->
  (exists r, In r (loadLocal b) /\ id r = id inv) ->
  let b' := fst (Scanner.marcar now b sc) in
  let sc' := snd (Scanner.marcar now b sc) in
  let again :=
    Scanner.handleScan (Scanner.Text (JSON_stringify [(js "id", id inv)]))
                       sc' in
  Scanner.offers_marcar sc' = false
  /\ Scanner.message sc' = Scanner.INGRESO_REGISTRADO
  /\ Scanner.invitados sc' = loadLocal b'
  /\ exists m,
       report again = Some (Matched m)
       /\ In m (loadLocal b')
       /\ id m = id inv
       /\ ingresado m = true
       /\ fecha_ingreso m = Some now
       /\ Scanner.offers_marcar again = false.
Proof.
  intros Hd Hk [r [Hr Hid]]. cbv zeta. unfold Scanner.marcar. rewrite Hd.
  simpl fst. simpl snd.
  split; [reflexivity|]. split; [reflexivity|].
  split; [reflexivity|].
  set (arr := map (fun item => if str_eqb (id item) (id inv)
                               then with_ingreso now item else item)
                  (loadLocal b)).
  set (sc' := Scanner.setInvData (Some (with_ingreso now inv))
                (Scanner.setMessage Scanner.INGRESO_REGISTRADO
                   (Scanner.setInvitados arr sc))).
  assert (Hex : exists i, In i (Scanner.invitados sc') /\ id i = id inv).
  { exists (with_ingreso now r). split; [|exact Hid].
    change (Scanner.invitados sc') with arr. unfold arr.
    apply in_map_iff. exists r. rewrite Hid, str_eqb_refl. auto. }
  destruct (handleScan_stringify (id inv) sc' Hk Hex)
    as [m (_ & Hm & Hmid & E)].
  change (Scanner.invitados sc') with arr in Hm.
  assert (Hmark : ingresado m = true /\ fecha_ingreso m = Some now).
  { unfold arr in Hm. apply update_in in Hm. destruct Hm as [r0 [_ Em]].
    destruct (str_eqb (id r0) (id inv)) eqn:E0.
    - rewrite Em. split; reflexivity.
    - apply str_eqb_neq in E0. rewrite Em in Hmid. contradiction. }
  exists m. rewrite E.
  split; [reflexivity|]. split; [rewrite loadLocal_saveLocal; exact Hm|].
  split; [exact Hmid|]. split; [apply Hmark|]. split; [apply Hmark|].
  unfold Scanner.offers_marcar. simpl. rewrite (proj1 Hmark). reflexivity.
Qed.

(** The first sample record, matched, marked and scanned again. *)
Lemma marcar_then_rescan_witness :
  let b := seed (js "0.k3v9q0a1m") (js "0.zx81c5p0q") fresh in
  let sc := Scanner.handleScan (Scanner.Text (jsq "{'id':'id_k3v9q0a'}"))
                               (Scanner.mount b) in
  Scanner.offers_marcar sc = true
  /\ Scanner.offers_marcar
       (snd (Scanner.marcar (js "2024-05-01T20:15:00.000Z") b sc)) = false.
Proof.
  cbv zeta. split; [reflexivity|].
  refine (proj1
    (marcar_then_rescan (js "2024-05-01T20:15:00.000Z")
       (seed (js "0.k3v9q0a1m") (js "0.zx81c5p0q") fresh)
       (Scanner.handleScan (Scanner.Text (jsq "{'id':'id_k3v9q0a'}"))
          (Scanner.mount (seed (js "0.k3v9q0a1m") (js "0.zx81c5p0q") fresh)))
       (Build_Invitado (js "id_k3v9q0a") NOMBRE_1 PROMOCIONADO []
                       false None (js "00000001"))
       eq_refl _ _)).
  - discriminate.
  - eexists. split; [left; reflexivity | reflexivity].
Defined.

(** X11.  The reader's callback never drops a result: the raw result
    becomes the text read, or the text of the result object when the
    text read is empty, and the page reports a malformed code, an
    unregistered invitee or a match.  With a text that is not empty it
    does what [handleScan] does on that text. *)
Theorem onResult_reports (text json : jsstring) (sc : Scanner.state) :
  Scanner.result (Scanner.onResult text json sc)
  = Some (if truthy_str text then text else json)
  /\ report (Scanner.onResult text json sc) <> None
  /\ (text <> [] ->
      Scanner.onResult text json sc
      = Scanner.handleScan (Scanner.Text text) sc).
Proof.
  unfold Scanner.onResult.
  set (d := if truthy_str text then Scanner.Text text
            else Scanner.Result text json).
  assert (Hd : d <> Scanner.Text []).
  { unfold d. destruct text; simpl; discriminate. }
  assert (Hraw : Scanner.raw_of d = if truthy_str text then text else json).
  { unfold d. destruct text; reflexivity. }
  split; [|split].
  - rewrite <- Hraw.
    destruct (JSON_parse (Scanner.raw_of d)) as [v|] eqn:Ep;
      [|rewrite handleScan_unparsed by assumption; reflexivity].
    destruct (truthy_opt (get_prop v (js "id"))) eqn:Et;
      [|rewrite (handleScan_no_id d sc v Hd Ep Et); reflexivity].
    destruct (get_prop v (js "id")) as [idv|] eqn:Eg; [|discriminate Et].
    rewrite (handleScan_id d sc v idv Hd Ep Eg Et).
    rewrite (proj1 (findInvitado_keeps idv _)). reflexivity.
  - destruct (JSON_parse (Scanner.raw_of d)) as [v|] eqn:Ep;
      [|rewrite handleScan_unparsed by assumption; discriminate].
    destruct (truthy_opt (get_prop v (js "id"))) eqn:Et;
      [|rewrite (handleScan_no_id d sc v Hd Ep Et); discriminate].
    destruct (get_prop v (js "id")) as [idv|] eqn:Eg; [|discriminate Et].
    rewrite (handleScan_id d sc v idv Hd Ep Eg Et).
    unfold Scanner.findInvitado.
    destruct (find (fun i => strict_eq (id i) idv)
                   (Scanner.invitados (Scanner.setResult (Scanner.raw_of d) sc)));
      discriminate.
  - intros Hne. unfold d. rewrite (proj2 (truthy_str_true text) Hne).
    reflexivity.
Qed.

(* ================================================================== *)
(** ** Cards *)
(* ================================================================== *)

(** X12.  In a browser the program reaches, the code drawn on the card
    of a stored record is the text of [{ id }] whether or not
    [generarQR] ran for it, and scanning it against a list that holds a
    record with the identifier reports a match with such a record. *)
Theorem card_code_scans (b : Browser) :
  reachable b ->
  Forall (fun r =>
            Tarjetas.qr_value r = JSON_stringify [(js "id", id r)]
            /\ forall sc,
                 (exists i, In i (Scanner.invitados sc) /\ id i = id r) ->
                 exists m,
                   report (Scanner.handleScan
                             (Scanner.Text (Tarjetas.qr_value r)) sc)
                   = Some (Matched m)
                   /\ In m (Scanner.invitados sc)
                   /\ id m = id r)
         (loadLocal b).
Proof.
  intros Hb. pose proof (reachable_stored_ok b Hb) as Hok.
  rewrite Forall_forall in Hok. apply Forall_forall. intros r Hr.
  destruct (Hok r Hr) as (Hid & _ & Hq).
  assert (Hv : Tarjetas.qr_value r = JSON_stringify [(js "id", id r)]).
  { unfold Tarjetas.qr_value. destruct Hq as [-> | ->]; reflexivity. }
  split; [exact Hv|]. intros sc Hex. rewrite Hv.
  destruct (handleScan_stringify (id r) sc Hid Hex) as [m (_ & Hm & Hmid & E)].
  exists m. rewrite E. repeat split; assumption.
Qed.

(** The card of the second sample record, whose code was never
    generated. *)
Lemma card_code_scans_witness :
  Forall (fun r => Tarjetas.qr_value r = JSON_stringify [(js "id", id r)])
         (loadLocal (seed (js "0.k3v9q0a1m") (js "0.zx81c5p0q") fresh)).
Proof.
  eapply Forall_impl;
    [|exact (card_code_scans
               (seed (js "0.k3v9q0a1m") (js "0.zx81c5p0q") fresh)
               (reach_load (js "0.k3v9q0a1m") (js "0.zx81c5p0q")))].
  intros r H. exact (proj1 H).
Defined.

Lemma replace_spaces_clean (s : jsstring) :
  forall in_run,
    forallb (fun c => negb (is_js_space c))
            (Tarjetas.replace_spaces in_run s) = true.
Proof.
  induction s as [|c s IH]; intros in_run; simpl; [reflexivity|].
  destruct (is_js_space c) eqn:Hc.
  - destruct in_run; simpl; [apply IH | apply IH].
  - simpl. rewrite Hc. simpl. apply IH.
Qed.

Lemma replace_spaces_fixed (s : jsstring) :
  forallb (fun c => negb (is_js_space c)) s = true ->
  forall in_run, Tarjetas.replace_spaces in_run s = s.
Proof.
  induction s as [|c s IH]; simpl; [reflexivity|].
  intros H in_run. apply andb_true_iff in H. destruct H as [Hc Hs].
  apply negb_true_iff in Hc. rewrite Hc. f_equal. apply IH. exact Hs.
Qed.

Lemma replace_spaces_length (s : jsstring) :
  forall in_run,
    (List.length (Tarjetas.replace_spaces in_run s) <= List.length s)%nat.
Proof.
  induction s as [|c s IH]; intros in_run; simpl; [lia|].
  pose proof (IH true) as Ht. pose proof (IH false) as Hf.
  destruct (is_js_space c); [destruct in_run|]; simpl; lia.
Qed.

Lemma replace_spaces_word (w t : jsstring) :
  forallb (fun c => negb (is_js_space c)) w = true ->
  Tarjetas.replace_spaces false (w ++ t)
  = w ++ Tarjetas.replace_spaces false t.
Proof.
  induction w as [|c w IH]; simpl; [reflexivity|].
  intros H. apply andb_true_iff in H. destruct H as [Hc Hw].
  apply negb_true_iff in Hc. rewrite Hc. f_equal. apply IH. exact Hw.
Qed.

Lemma replace_spaces_in_run (sp t : jsstring) :
  forallb is_js_space sp = true ->
  Tarjetas.replace_spaces true (sp ++ t) = Tarjetas.replace_spaces true t.
Proof.
  induction sp as [|c sp IH]; simpl; [reflexivity|].
  intros H. apply andb_true_iff in H. destruct H as [Hc Hsp].
  rewrite Hc. apply IH. exact Hsp.
Qed.

Lemma replace_spaces_run_end (t : jsstring) :
  is_js_space (hd 0%N t) = false ->
  Tarjetas.replace_spaces true t = Tarjetas.replace_spaces false t.
Proof.
  destruct t as [|c t]; simpl; [reflexivity|].
  intros H. rewrite H. reflexivity.
Qed.

(** X13.  The name of a downloaded card has no white space: a run of
    white space of the invitee's name, after a part without white space
    and before the end of the name or a unit that is not white space,
    is one underscore in it.  It is no longer than the name and the
    extension, it is the name and the extension when the name has no
    white space, and replacing again changes nothing. *)
Theorem file_name_clean (inv : Invitado) (ext : jsstring) :
  let base := Tarjetas.replace_spaces false (nombre_completo inv) in
  (forall w sp rest,
      nombre_completo inv = w ++ sp ++ rest ->
      forallb (fun c => negb (is_js_space c)) w = true ->
      sp <> [] ->
      forallb is_js_space sp = true ->
      is_js_space (hd 0%N rest) = false ->
      Tarjetas.file_name inv ext
      = w ++ 95%N :: Tarjetas.replace_spaces false rest ++ ext)
  /\ forallb (fun c => negb (is_js_space c)) base = true
  /\ (List.length base <= List.length (nombre_completo inv))%nat
  /\ (forallb (fun c => negb (is_js_space c)) (nombre_completo inv) = true ->
      Tarjetas.file_name inv ext = nombre_completo inv ++ ext)
  /\ Tarjetas.replace_spaces false base = base.
Proof.
  cbv zeta. split.
  - intros w sp rest E Hw Hne Hsp Hrest. unfold Tarjetas.file_name.
    rewrite E, replace_spaces_word by exact Hw.
    destruct sp as [|c sp]; [contradiction Hne; reflexivity|].
    simpl in Hsp. apply andb_true_iff in Hsp. destruct Hsp as [Hc Hsp].
    simpl. rewrite Hc.
    rewrite replace_spaces_in_run by exact Hsp.
    rewrite replace_spaces_run_end by exact Hrest.
    rewrite <- app_assoc. reflexivity.
  - split; [apply replace_spaces_clean|].
    split; [apply replace_spaces_length|]. split.
    + intros H. unfold Tarjetas.file_name.
      rewrite replace_spaces_fixed by exact H. reflexivity.
    + apply replace_spaces_fixed. apply replace_spaces_clean.
Qed.

(* ================================================================== *)
(** ** What the operations keep *)
(* ================================================================== *)

Lemma kept_refl (r : Invitado) : kept r r.
Proof. unfold kept. repeat split; auto. Qed.

Lemma kept_trans (r1 r2 r3 : Invitado) :
  kept r1 r2 -> kept r2 r3 -> kept r1 r3.
Proof.
  unfold kept.
  intros (A1 & A2 & A3 & A4 & A5 & A6 & A7) (B1 & B2 & B3 & B4 & B5 & B6 & B7).
  repeat split; try congruence; auto.
Qed.

Lemma kept_with_qr_code (k : jsstring) (r : Invitado) :
  kept r (with_qr_code (JSON_stringify [(js "id", k)]) r).
Proof. unfold kept. simpl. repeat split; auto. intros _. discriminate. Qed.

Lemma kept_with_ingreso (now : jsstring) (r : Invitado) :
  kept r (with_ingreso now r).
Proof. unfold kept. simpl. repeat split; auto. intros _. discriminate. Qed.

Lemma Forall2_refl_kept (l : list Invitado) : Forall2 kept l l.
Proof. induction l; constructor; [apply kept_refl | assumption]. Qed.

Lemma Forall2_trans_kept (l1 l2 l3 : list Invitado) :
  Forall2 kept l1 l2 -> Forall2 kept l2 l3 -> Forall2 kept l1 l3.
Proof.
  intros H. revert l3. induction H as [|a b l1 l2 Hab _ IH]; intros l3 H3.
  - inversion H3. constructor.
  - inversion H3 as [|b' c l2' l3' Hbc Hrest]; subst.
    constructor; [exact (kept_trans a b c Hab Hbc) | apply IH; exact Hrest].
Qed.

Lemma Forall2_kept_update (k : jsstring) (f : Invitado -> Invitado)
      (l : list Invitado) :
  (forall r, kept r (f r)) ->
  Forall2 kept l
    (map (fun item => if str_eqb (id item) k then f item else item) l).
Proof.
  intros Hf. induction l as [|a l IH]; simpl; constructor; [|exact IH].
  destruct (str_eqb (id a) k); [apply Hf | apply kept_refl].
Qed.

(** What one operation does to the stored collection. *)
Lemma step_keeps (b b' : Browser) :
  step b b' ->
  exists l1 l2,
    loadLocal b' = l1 ++ l2 /\ Forall2 kept (loadLocal b) l1.
Proof.
  assert (Hsame : forall b0 b1 : Browser,
             loadLocal b1 = loadLocal b0 ->
             exists l1 l2, loadLocal b1 = l1 ++ l2
                           /\ Forall2 kept (loadLocal b0) l1).
  { intros b0 b1 E. exists (loadLocal b0), []. rewrite app_nil_r.
    split; [exact E | apply Forall2_refl_kept]. }
  assert (Hupd : forall (b0 : Browser) k f,
             (forall r, kept r (f r)) ->
             exists l1 l2,
               loadLocal
                 (saveLocal
                    (map (fun item => if str_eqb (id item) k
                                      then f item else item)
                         (loadLocal b0)) b0) = l1 ++ l2
               /\ Forall2 kept (loadLocal b0) l1).
  { intros b0 k f Hf. rewrite loadLocal_saveLocal. eexists. exists [].
    rewrite app_nil_r. split; [reflexivity|].
    apply Forall2_kept_update. exact Hf. }
  intros H. destruct H as [b rnd1 rnd2 | b r | b | b | b s | b
                          | b s inv | b s inv now | b s rnd36 | b s now].
  - unfold seed.
    destruct (Nat.eqb (List.length (loadLocal b)) 0) eqn:E.
    + apply Nat.eqb_eq, length_zero_iff_nil in E.
      exists [], (sample rnd1 rnd2). rewrite E.
      split; [reflexivity | constructor].
    + apply Hsame. reflexivity.
  - apply Hsame. reflexivity.
  - unfold Protected. destruct (negb (truthy (session_user b)));
      apply Hsame; reflexivity.
  - unfold Login.mount. destruct (truthy (session_user b));
      apply Hsame; reflexivity.
  - unfold Login.handle.
    destruct (str_eqb (Login.u s) ADMIN_USER && str_eqb (Login.p s) ADMIN_PASS);
      apply Hsame; reflexivity.
  - apply Hsame. reflexivity.
  - apply Hupd. intros r. apply kept_with_qr_code.
  - apply Hupd. intros r. apply kept_with_ingreso.
  - unfold Dashboard.addInvitado.
    destruct (negb (truthy_str (trim (Dashboard.newNombre s)))); simpl.
    + apply Hsame. reflexivity.
    + rewrite loadLocal_saveLocal.
      exists (loadLocal b), [Dashboard.item rnd36 s].
      split; [reflexivity | apply Forall2_refl_kept].
  - unfold Scanner.marcar. destruct (Scanner.invData s) as [inv|]; simpl.
    + apply Hupd. intros r. apply kept_with_ingreso.
    + apply Hsame. reflexivity.
Qed.

(** X14.  No sequence of operations removes, moves or renames a stored
    record: afterwards the stored collection is the records it had, each
    at its position with the identifier, name, type and national id it
    had, still entered if it was, its entry date and its code still
    there if they were, followed by the records added since. *)
Theorem steps_keep_records (b b' : Browser) :
  steps b b' ->
  exists l1 l2,
    loadLocal b' = l1 ++ l2
    /\ Forall2 kept (loadLocal b) l1
    /\ (List.length (loadLocal b) <= List.length (loadLocal b'))%nat.
Proof.
  intros H.
  assert (Hk : exists l1 l2,
             loadLocal b' = l1 ++ l2 /\ Forall2 kept (loadLocal b) l1).
  { induction H as [b | b b1 b2 Hstep _ IH].
    - exists (loadLocal b), []. rewrite app_nil_r.
      split; [reflexivity | apply Forall2_refl_kept].
    - destruct (step_keeps b b1 Hstep) as [l1 [l2 [E1 F1]]].
      destruct IH as [m1 [m2 [E2 F2]]].
      rewrite E1 in F2. apply Forall2_app_inv_l in F2.
      destruct F2 as [m1a [m1b [Fa [Fb Em]]]].
      exists m1a, (m1b ++ m2). split.
      + rewrite E2, Em, app_assoc. reflexivity.
      + exact (Forall2_trans_kept _ _ _ F1 Fa). }
  destruct Hk as [l1 [l2 [E F]]]. exists l1, l2.
  split; [exact E|]. split; [exact F|].
  rewrite E, length_app, <- (Forall2_length F). lia.
Qed.

(** A code is generated for the first sample record, an invitee is
    added, and the first record is marked. *)
Lemma steps_keep_records_witness :
  let b := seed (js "0.k3v9q0a1m") (js "0.zx81c5p0q") fresh in
  let inv := Build_Invitado (js "id_k3v9q0a") [] INVITADO [] false None [] in
  let b1 := fst (Dashboard.generarQR inv b Dashboard.initial) in
  let b2 := fst (Dashboard.addInvitado (js "0.abc1234xyz") b1
                   (Dashboard.setNewNombre (js "Ana Ruiz") Dashboard.initial)) in
  let b3 := fst (Dashboard.marcarIngreso inv (js "2024-05-01T20:15:00.000Z")
                   b2 Dashboard.initial) in
  exists l1 l2,
    loadLocal b3 = l1 ++ l2
    /\ Forall2 kept (loadLocal b) l1
    /\ (List.length (loadLocal b) <= List.length (loadLocal b3))%nat.
Proof.
  cbv zeta.
  apply steps_keep_records.
  eapply steps_step; [apply step_generarQR|].
  eapply steps_step; [apply step_addInvitado|].
  eapply steps_step; [apply step_marcarIngreso|].
  apply steps_refl.
Defined.

(* ================================================================== *)
(** ** Every stored record was created by the program *)
(* ================================================================== *)

Lemma created_sample (rnd1 rnd2 : jsstring) :
  Forall created (sample rnd1 rnd2).
Proof.
  constructor; [|constructor; [|constructor]].
  - split; [exists rnd1; reflexivity|]. split; [discriminate|].
    split; [reflexivity|]. split; [split; reflexivity | left; reflexivity].
  - split; [exists rnd2; reflexivity|]. split; [discriminate|].
    split; [reflexivity|]. split; [split; reflexivity | left; reflexivity].
Qed.

Lemma created_item (rnd36 : jsstring) (s : Dashboard.state) :
  trim (Dashboard.newNombre s) <> [] -> created (Dashboard.item rnd36 s).
Proof.
  intros H. split; [exists rnd36; reflexivity|]. split; [exact H|].
  split; [apply trim_idempotent|].
  split; [apply fecha_ok_item | left; reflexivity].
Qed.

Lemma created_generarQR (inv : Invitado) (l : list Invitado) :
  Forall created l ->
  Forall created
    (map (fun item =>
            if str_eqb (id item) (id inv)
            then with_qr_code (JSON_stringify [(js "id", id inv)]) item
            else item) l).
Proof.
  intros H. apply Forall_map. eapply Forall_impl; [|exact H].
  intros r (H1 & H2 & H3 & H4 & H5). cbv beta.
  destruct (str_eqb (id r) (id inv)) eqn:E;
    [|exact (conj H1 (conj H2 (conj H3 (conj H4 H5))))].
  apply str_eqb_eq in E.
  split; [exact H1|]. split; [exact H2|]. split; [exact H3|].
  split; [exact H4|]. right. simpl. rewrite E. reflexivity.
Qed.

Lemma created_marcar (inv : Invitado) (now : jsstring)
      (l : list Invitado) :
  Forall created l ->
  Forall created
    (map (fun item =>
            if str_eqb (id item) (id inv)
            then with_ingreso now item else item) l).
Proof.
  intros H. apply update_Forall; [|exact H].
  intros r (H1 & H2 & H3 & H4 & H5).
  split; [exact H1|]. split; [exact H2|]. split; [exact H3|].
  split; [apply fecha_ok_with_ingreso | exact H5].
Qed.

Lemma map_not_nil (A B : Type) (f : A -> B) (l : list A) :
  l <> [] -> map f l <> [].
Proof. destruct l; [contradiction | discriminate]. Qed.

(** X15.  In every browser the program reaches the stored collection
    has a record, and every stored record is one the program created:
    its identifier came out of [uid], its name is not empty and has no
    white space at its ends, it has an entry date exactly when it is
    entered, and its code is absent or the text of [{ id }]. *)
Theorem reachable_records (b : Browser) :
  reachable b ->
  loadLocal b <> [] /\ Forall created (loadLocal b).
Proof.
  induction 1 as [rnd1 rnd2 | b rnd1 rnd2 _ [N IH] | b r _ IH | b _ IH
                 | b s _ IH | b _ IH | b s inv _ [N IH]
                 | b s inv now _ [N IH] | b s rnd36 _ [N IH]
                 | b s now _ [N IH]].
  - split; [discriminate | apply created_sample].
  - unfold seed. destruct (loadLocal b) as [|r l] eqn:E; simpl.
    + contradiction.
    + rewrite E. split; assumption.
  - exact IH.
  - unfold Protected. destruct (negb (truthy (session_user b))); exact IH.
  - unfold Login.handle.
    destruct (str_eqb (Login.u s) ADMIN_USER && str_eqb (Login.p s) ADMIN_PASS);
      exact IH.
  - exact IH.
  - simpl. rewrite loadLocal_saveLocal.
    split; [apply map_not_nil; exact N | apply created_generarQR; exact IH].
  - simpl. rewrite loadLocal_saveLocal.
    split; [apply map_not_nil; exact N | apply created_marcar; exact IH].
  - unfold Dashboard.addInvitado.
    destruct (truthy_str (trim (Dashboard.newNombre s))) eqn:E; simpl.
    + rewrite loadLocal_saveLocal. split.
      * intros H. apply app_eq_nil in H. destruct H as [_ H]. discriminate H.
      * apply Forall_app. split; [exact IH|].
        constructor; [|constructor]. apply created_item.
        apply truthy_str_true. exact E.
    + split; assumption.
  - unfold Scanner.marcar. destruct (Scanner.invData s); simpl.
    + rewrite loadLocal_saveLocal.
      split; [apply map_not_nil; exact N | apply created_marcar; exact IH].
    + split; assumption.
Qed.

(** A first visit, then an invitee added with spaces around the name. *)
Lemma reachable_records_witness :
  let b := fst (Dashboard.addInvitado (js "0.abc1234xyz")
                  (seed (js "0.k3v9q0a1m") (js "0.zx81c5p0q") fresh)
                  (Dashboard.setNewNombre (js "  Ana Ruiz ")
                     Dashboard.initial)) in
  loadLocal b <> [] /\ Forall created (loadLocal b).
Proof.
  cbv zeta.
  apply reachable_records.
  apply reach_addInvitado. apply reach_load.
Defined.

(* ================================================================== *)
(** ** The stored text reads back *)
(* ================================================================== *)

Lemma option_map_app_app (A : Type) (a b : list A) (o : option (list A)) :
  option_map (app a) (option_map (app b) o) = option_map (app (a ++ b)) o.
Proof. destruct o; simpl; [rewrite app_assoc|]; reflexivity. Qed.

(** Lexing a text in two pieces. *)
Lemma lex_app (s : jsstring) :
  forall st rest,
    lex st (s ++ rest)
    = match lex_run st s with
      | Some (toks, st') => option_map (app toks) (lex st' rest)
      | None => None
      end.
Proof.
  induction s as [|c s IH]; intros st rest; simpl.
  - symmetry. apply option_map_app_nil.
  - destruct (lex_step st c) as [[toks st']|]; [|reflexivity].
    rewrite IH. destruct (lex_run st' s) as [[toks' st'']|]; [|reflexivity].
    apply option_map_app_app.
Qed.

Lemma lex_invitado (r : Invitado) (rest : jsstring) :
  lex LDefault (Blob.stringify_invitado r ++ rest)
  = option_map (app (Blob.tokens_invitado r)) (lex LDefault rest).
Proof.
  unfold Blob.stringify_invitado, Blob.tokens_invitado.
  repeat rewrite <- app_assoc.
  lex_piece lex_app. rewrite lex_QuoteJSONString.
  lex_piece lex_app. rewrite lex_QuoteJSONString.
  lex_piece lex_app. rewrite lex_QuoteJSONString.
  lex_piece lex_app. rewrite lex_QuoteJSONString.
  lex_piece lex_app.
  destruct (ingresado r); unfold Blob.stringify_bool;
    lex_piece lex_app; lex_piece lex_app;
    (destruct (fecha_ingreso r) as [t|]; unfold Blob.stringify_fecha;
     [ rewrite lex_QuoteJSONString; lex_piece lex_app
     | lex_piece lex_app; lex_piece lex_app ]);
    rewrite lex_QuoteJSONString; lex_piece lex_app;
    repeat rewrite option_map_app_app; reflexivity.
Qed.

Lemma lex_comma (s : jsstring) :
  lex LDefault (44%N :: s) = option_map (app [TComma]) (lex LDefault s).
Proof. reflexivity. Qed.

Lemma lex_items (l : list Invitado) :
  forall rest,
    lex LDefault (Blob.stringify_items l ++ rest)
    = option_map (app (Blob.tokens_items l)) (lex LDefault rest).
Proof.
  induction l as [|r l IH]; intros rest.
  - simpl. symmetry. apply option_map_app_nil.
  - destruct l as [|r' l'].
    + apply lex_invitado.
    + change (Blob.stringify_items (r :: r' :: l'))
        with (Blob.stringify_invitado r
              ++ 44%N :: Blob.stringify_items (r' :: l')).
      change (Blob.tokens_items (r :: r' :: l'))
        with (Blob.tokens_invitado r
              ++ TComma :: Blob.tokens_items (r' :: l')).
      rewrite <- app_assoc, lex_invitado.
      change ((44%N :: Blob.stringify_items (r' :: l')) ++ rest)
        with (44%N :: (Blob.stringify_items (r' :: l') ++ rest)).
      rewrite lex_comma, IH, !option_map_app_app. reflexivity.
Qed.

Lemma lex_stringify (arr : list Invitado) :
  lex LDefault (Blob.stringify arr)
  = Some (TLBrack :: Blob.tokens_items arr ++ [TRBrack]).
Proof.
  unfold Blob.stringify.
  change (lex LDefault (91%N :: Blob.stringify_items arr ++ [93%N]))
    with (option_map (app [TLBrack])
            (lex LDefault (Blob.stringify_items arr ++ [93%N]))).
  rewrite lex_items. reflexivity.
Qed.

Lemma parse_invitado (r : Invitado) (es : list json) (stk : list frame)
      (ts : list token) :
  parse_tokens (PValue (FArr es :: stk)) (Blob.tokens_invitado r ++ ts)
  = parse_tokens (PArrNext (Blob.to_json r :: es) stk) ts.
Proof.
  unfold Blob.tokens_invitado, Blob.to_json.
  destruct (fecha_ingreso r); reflexivity.
Qed.

Lemma parse_items (l : list Invitado) :
  forall es stk ts,
    l <> [] ->
    parse_tokens (PValue (FArr es :: stk))
                 (Blob.tokens_items l ++ TRBrack :: ts)
    = parse_tokens
        (deliver (JArr (rev es ++ map Blob.to_json l)) stk) ts.
Proof.
  induction l as [|r l IH]; intros es stk ts Hne; [contradiction|].
  destruct l as [|r' l'].
  - simpl Blob.tokens_items. rewrite parse_invitado. reflexivity.
  - change (Blob.tokens_items (r :: r' :: l'))
      with (Blob.tokens_invitado r
            ++ TComma :: Blob.tokens_items (r' :: l')).
    rewrite <- app_assoc, parse_invitado.
    change (parse_tokens (PArrNext (Blob.to_json r :: es) stk)
              ((TComma :: Blob.tokens_items (r' :: l')) ++ TRBrack :: ts))
      with (parse_tokens (PValue (FArr (Blob.to_json r :: es) :: stk))
              (Blob.tokens_items (r' :: l') ++ TRBrack :: ts)).
    rewrite IH by discriminate.
    simpl rev. rewrite <- app_assoc. reflexivity.
Qed.

Lemma parse_stringify (arr : list Invitado) :
  JSON_parse (Blob.stringify arr) = Some (JArr (map Blob.to_json arr)).
Proof.
  unfold JSON_parse. rewrite lex_stringify.
  destruct arr as [|r l]; [reflexivity|].
  change (parse_tokens (PValue [])
            (TLBrack :: Blob.tokens_items (r :: l) ++ [TRBrack]))
    with (parse_tokens (PArrStart [])
            (Blob.tokens_items (r :: l) ++ [TRBrack])).
  assert (E : parse_tokens (PArrStart [])
                (Blob.tokens_items (r :: l) ++ [TRBrack])
              = parse_tokens (PValue [FArr []])
                  (Blob.tokens_items (r :: l) ++ [TRBrack])).
  { destruct l; reflexivity. }
  rewrite E, parse_items by discriminate. reflexivity.
Qed.

Lemma to_json_inj (r r' : Invitado) :
  Blob.to_json r = Blob.to_json r' -> r = r'.
Proof.
  destruct r as [i n t q g f d], r' as [i' n' t' q' g' f' d'].
  unfold Blob.to_json. simpl. intros H.
  inversion H as [[Hi Hn Ht Hq Hg Hf Hd]]. subst.
  assert (Et : t = t').
  { destruct t, t'; try reflexivity; vm_compute in Ht; discriminate Ht. }
  assert (Ef : f = f').
  { destruct f, f'; try reflexivity; inversion Hf; reflexivity. }
  subst. reflexivity.
Qed.

Lemma map_to_json_inj (l l' : list Invitado) :
  map Blob.to_json l = map Blob.to_json l' -> l = l'.
Proof.
  revert l'. induction l as [|r l IH]; intros [|r' l'] H;
    try discriminate H; [reflexivity|].
  simpl in H.
  pose proof (f_equal (@hd json JNull) H) as Hr.
  pose proof (f_equal (@tl json) H) as Hl.
  simpl in Hr, Hl.
  rewrite (to_json_inj r r' Hr), (IH l' Hl). reflexivity.
Qed.

(** X16.  What [saveLocal] writes, [loadLocal] reads back: parsing the
    text of a collection gives the array of its records, each an object
    whose properties are the record's fields, so that two collections
    never have the same text.  Without an entry under the key, with an
    empty one or with one that does not parse, [loadLocal] gives the
    empty array. *)
Theorem blob_round_trip (arr : list Invitado) :
  Blob.loadLocal (Blob.saveLocal arr) = JArr (map Blob.to_json arr)
  /\ Forall (fun r =>
       get_prop (Blob.to_json r) (js "id") = Some (JStr (id r))
       /\ get_prop (Blob.to_json r) (js "nombre_completo")
          = Some (JStr (nombre_completo r))
       /\ get_prop (Blob.to_json r) (js "tipo_invitado")
          = Some (JStr (Blob.tipo_text (tipo_invitado r)))
       /\ get_prop (Blob.to_json r) (js "qr_code") = Some (JStr (qr_code r))
       /\ get_prop (Blob.to_json r) (js "ingresado")
          = Some (JBool (ingresado r))
       /\ get_prop (Blob.to_json r) (js "fecha_ingreso")
          = Some (match fecha_ingreso r with
                  | Some t => JStr t
                  | None => JNull
                  end)
       /\ get_prop (Blob.to_json r) (js "dni") = Some (JStr (dni r)))
     arr
  /\ (forall arr', Blob.saveLocal arr = Blob.saveLocal arr' -> arr = arr')
  /\ Blob.loadLocal None = JArr []
  /\ Blob.loadLocal (Some []) = JArr []
  /\ (forall t, JSON_parse t = None -> Blob.loadLocal (Some t) = JArr []).
Proof.
  assert (Hload : forall a,
             Blob.loadLocal (Blob.saveLocal a) = JArr (map Blob.to_json a)).
  { intros a. unfold Blob.loadLocal, Blob.saveLocal.
    change (str_or (Blob.stringify a) (js "[]")) with (Blob.stringify a).
    rewrite parse_stringify. reflexivity. }
  split; [apply Hload|]. split; [|split; [|split; [|split]]].
  - apply Forall_forall. intros r _. repeat split.
  - intros arr' H. apply map_to_json_inj.
    assert (E : JArr (map Blob.to_json arr) = JArr (map Blob.to_json arr')).
    { rewrite <- !Hload, H. reflexivity. }
    inversion E. reflexivity.
  - reflexivity.
  - reflexivity.
  - intros t H. unfold Blob.loadLocal.
    destruct t as [|c t]; [reflexivity|].
    change (str_or (c :: t) (js "[]")) with (c :: t).
    rewrite H. reflexivity.
Qed.

(* ================================================================== *)
(** ** Scans that match nothing, and what they leave *)
(* ================================================================== *)

Lemma find_not_string (idv : json) (l : list Invitado) :
  (forall t, idv <> JStr t) ->
  find (fun i => strict_eq (id i) idv) l = None.
Proof.
  intros H. induction l as [|r l IH]; simpl; [reflexivity|].
  destruct idv; try exact IH. exfalso. exact (H s eq_refl).
Qed.

(** X17.  Identifiers are compared with [===]: a payload whose [id] is
    truthy and is not a string, a number or an object say, matches no
    record of any list; the scanner reports that the invitee is not
    registered and shows no record. *)
Theorem non_string_id_not_registered
  (d : Scanner.data) (sc : Scanner.state) (v idv : json) :
  d <> Scanner.Text [] ->
  JSON_parse (Scanner.raw_of d) = Some v ->
  get_prop v (js "id") = Some idv ->
  truthy idv = true ->
  (forall t, idv <> JStr t) ->
  report (Scanner.handleScan d sc) = Some NotRegistered
  /\ Scanner.invData (Scanner.handleScan d sc) = None
  /\ Scanner.offers_marcar (Scanner.handleScan d sc) = false.
Proof.
  intros Hd Hp Hg Ht Hs.
  rewrite (handleScan_id d sc v idv Hd Hp Hg Ht).
  unfold Scanner.findInvitado.
  rewrite (find_not_string idv _ Hs). repeat split.
Qed.

(** The identifier written as a number. *)
Lemma non_string_id_not_registered_witness :
  report (Scanner.handleScan (Scanner.Text (jsq "{'id':5}"))
            (Scanner.mount (seed (js "0.k3v9q0a1m") (js "0.zx81c5p0q") fresh)))
  = Some NotRegistered.
Proof.
  refine (proj1
    (non_string_id_not_registered
       (Scanner.Text (jsq "{'id':5}"))
       (Scanner.mount (seed (js "0.k3v9q0a1m") (js "0.zx81c5p0q") fresh))
       (JObj [(js "id", JNum (Build_numlit false [5%N] [] false []))])
       (JNum (Build_numlit false [5%N] [] false []))
       _ eq_refl eq_refl eq_refl _)).
  - discriminate.
  - intros t. discriminate.
Defined.

(** X18.  A malformed scan leaves the matched record on the page: the
    button is offered as before, and [marcar] then marks the invitee
    matched before, as if the malformed scan had not happened.  A scan
    of an unregistered identifier clears the record, and [marcar] then
    does nothing. *)
Theorem malformed_scan_keeps_match
  (d : Scanner.data) (sc : Scanner.state) (now : jsstring) (b : Browser) :
  d <> Scanner.Text [] ->
  (JSON_parse (Scanner.raw_of d) = None
   \/ exists v, JSON_parse (Scanner.raw_of d) = Some v
                /\ truthy_opt (get_prop v (js "id")) = false) ->
  let sc' := Scanner.handleScan d sc in
  Scanner.message sc' = Scanner.QR_INVALIDO
  /\ Scanner.offers_marcar sc' = Scanner.offers_marcar sc
  /\ fst (Scanner.marcar now b sc') = fst (Scanner.marcar now b sc)
  /\ Scanner.invData (snd (Scanner.marcar now b sc'))
     = Scanner.invData (snd (Scanner.marcar now b sc))
  /\ (forall idv,
        find (fun i => strict_eq (id i) idv) (Scanner.invitados sc) = None ->
        Scanner.marcar now b (Scanner.findInvitado idv sc)
        = (b, Scanner.findInvitado idv sc)).
Proof.
  intros Hd H. cbv zeta.
  assert (E : Scanner.handleScan d sc
              = Scanner.setMessage Scanner.QR_INVALIDO
                  (Scanner.setResult (Scanner.raw_of d) sc)).
  { destruct H as [Hp | [v [Hp Hf]]].
    - apply handleScan_unparsed; assumption.
    - apply (handleScan_no_id d sc v); assumption. }
  rewrite E. split; [reflexivity|]. split; [reflexivity|].
  split; [|split].
  - unfold Scanner.marcar. simpl. destruct (Scanner.invData sc); reflexivity.
  - unfold Scanner.marcar. simpl. destruct (Scanner.invData sc); reflexivity.
  - intros idv Hf. unfold Scanner.findInvitado. rewrite Hf. reflexivity.
Qed.

(** A match, then a text that is not JSON: the button is still there. *)
Lemma malformed_scan_keeps_match_witness :
  let sc := Scanner.handleScan (Scanner.Text (jsq "{'id':'id_k3v9q0a'}"))
              (Scanner.mount (seed (js "0.k3v9q0a1m") (js "0.zx81c5p0q") fresh)) in
  Scanner.offers_marcar (Scanner.handleScan (Scanner.Text (js "hola")) sc)
  = true.
Proof.
  cbv zeta.
  refine (eq_trans
    (proj1 (proj2
      (malformed_scan_keeps_match
         (Scanner.Text (js "hola"))
         (Scanner.handleScan (Scanner.Text (jsq "{'id':'id_k3v9q0a'}"))
            (Scanner.mount (seed (js "0.k3v9q0a1m") (js "0.zx81c5p0q") fresh)))
         [] fresh _ (or_introl eq_refl))))
    eq_refl).
  discriminate.
Defined.

(* ================================================================== *)
(** ** The order of the updates *)
(* ================================================================== *)

Lemma update_commute (k1 k2 : jsstring) (f g : Invitado -> Invitado)
      (l : list Invitado) :
  (forall r, id (f r) = id r) ->
  (forall r, id (g r) = id r) ->
  (forall r, f (g r) = g (f r)) ->
  map (fun item => if str_eqb (id item) k1 then f item else item)
      (map (fun item => if str_eqb (id item) k2 then g item else item) l)
  = map (fun item => if str_eqb (id item) k2 then g item else item)
        (map (fun item => if str_eqb (id item) k1 then f item else item) l).
Proof.
  intros Hf Hg Hfg. rewrite !map_map. apply map_ext. intros r.
  destruct (str_eqb (id r) k1) eqn:E1; destruct (str_eqb (id r) k2) eqn:E2;
    rewrite ?Hf, ?Hg, ?E1, ?E2; auto.
Qed.

(** X19.  Generating a code and marking an entry, for the same invitee
    or for two, leave the same stored collection in either order; so do
    two generations of codes, and two marks of invitees with different
    identifiers. *)
Theorem updates_commute
  (i1 i2 : Invitado) (t1 t2 : jsstring) (b : Browser)
  (s1 s2 s3 s4 : Dashboard.state) :
  fst (Dashboard.marcarIngreso i2 t2
         (fst (Dashboard.generarQR i1 b s1)) s2)
  = fst (Dashboard.generarQR i1
           (fst (Dashboard.marcarIngreso i2 t2 b s3)) s4)
  /\ fst (Dashboard.generarQR i2 (fst (Dashboard.generarQR i1 b s1)) s2)
     = fst (Dashboard.generarQR i1 (fst (Dashboard.generarQR i2 b s3)) s4)
  /\ (id i1 <> id i2 ->
      fst (Dashboard.marcarIngreso i2 t2
             (fst (Dashboard.marcarIngreso i1 t1 b s1)) s2)
      = fst (Dashboard.marcarIngreso i1 t1
               (fst (Dashboard.marcarIngreso i2 t2 b s3)) s4)).
Proof.
  unfold Dashboard.marcarIngreso, Dashboard.generarQR. simpl.
  rewrite !loadLocal_saveLocal. unfold saveLocal. simpl.
  split; [|split].
  - rewrite update_commute; reflexivity.
  - f_equal. f_equal.
    rewrite !map_map. apply map_ext. intros r.
    destruct (str_eqb (id r) (id i1)) eqn:E1;
      destruct (str_eqb (id r) (id i2)) eqn:E2; simpl;
      rewrite ?E1, ?E2; try reflexivity.
    apply str_eqb_eq in E1. apply str_eqb_eq in E2.
    rewrite <- E1, <- E2. reflexivity.
  - intros Hne. f_equal. f_equal.
    rewrite !map_map. apply map_ext. intros r.
    destruct (str_eqb (id r) (id i1)) eqn:E1;
      destruct (str_eqb (id r) (id i2)) eqn:E2; simpl;
      rewrite ?E1, ?E2; try reflexivity.
    apply str_eqb_eq in E1. apply str_eqb_eq in E2. congruence.
Qed.

(* ================================================================== *)
(** ** The session entry *)
(* ================================================================== *)

Lemma step_session (b b' : Browser) :
  step b b' ->
  sessionStorage b' = sessionStorage b
  \/ sessionStorage b' = None
  \/ sessionStorage b'
     = Some (JSON_stringify [(js "username", ADMIN_USER)]).
Proof.
  intros H. destruct H.
  - left. unfold seed.
    destruct (Nat.eqb (List.length (loadLocal b)) 0); reflexivity.
  - left. reflexivity.
  - left. unfold Protected.
    destruct (negb (truthy (session_user b))); reflexivity.
  - left. unfold Login.mount.
    destruct (truthy (session_user b)); reflexivity.
  - unfold Login.handle.
    destruct (str_eqb (Login.u s) ADMIN_USER) eqn:Eu;
      [|left; reflexivity].
    destruct (str_eqb (Login.p s) ADMIN_PASS); [|left; reflexivity].
    apply str_eqb_eq in Eu. right. right. simpl. rewrite Eu. reflexivity.
  - right. left. reflexivity.
  - left. reflexivity.
  - left. reflexivity.
  - left. unfold Dashboard.addInvitado.
    destruct (negb (truthy_str (trim (Dashboard.newNombre s))));
      reflexivity.
  - left. unfold Scanner.marcar.
    destruct (Scanner.invData s); reflexivity.
Qed.

(** X20.  The only session entry the program ever writes is the text of
    [{ username }] for the admin: after any sequence of operations the
    entry is the one there was, or none, or that text.  So in a browser
    that had no session entry, whenever a protected view is let stand
    the session user is the admin object. *)
Theorem session_written_by_login_only (b b' : Browser) :
  steps b b' ->
  (sessionStorage b' = sessionStorage b
   \/ sessionStorage b' = None
   \/ sessionStorage b'
      = Some (JSON_stringify [(js "username", ADMIN_USER)]))
  /\ (sessionStorage b = None ->
      forall r,
        location (Protected (navigate r b')) <> RLogin ->
        session_user b' = JObj [(js "username", JStr ADMIN_USER)]).
Proof.
  intros H.
  assert (Hinv : sessionStorage b' = sessionStorage b
                 \/ sessionStorage b' = None
                 \/ sessionStorage b'
                    = Some (JSON_stringify [(js "username", ADMIN_USER)])).
  { induction H as [b|b b1 b2 Hs _ IH]; [left; reflexivity|].
    destruct IH as [E|[E|E]]; [|right; left; exact E|right; right; exact E].
    rewrite E. exact (step_session _ _ Hs). }
  split; [exact Hinv|].
  intros Hnone r Hloc.
  destruct Hinv as [E|[E|E]].
  - exfalso. apply Hloc. unfold Protected.
    rewrite session_user_navigate.
    rewrite (session_user_absent b') by (rewrite E; exact Hnone).
    reflexivity.
  - exfalso. apply Hloc. unfold Protected.
    rewrite session_user_navigate.
    rewrite (session_user_absent b' E). reflexivity.
  - exact (session_user_username b' ADMIN_USER E).
Qed.

(** The admin logs in from a browser without a session entry, and a
    code is generated. *)
Lemma session_written_by_login_only_witness :
  let b := seed (js "0.k3v9q0a1m") (js "0.zx81c5p0q") fresh in
  let l := Login.Build_state ADMIN_USER ADMIN_PASS [] in
  let inv := Build_Invitado (js "id_k3v9q0a") [] INVITADO [] false None [] in
  let b1 := fst (Login.handle b l) in
  let b2 := fst (Dashboard.generarQR inv b1 Dashboard.initial) in
  session_user b2 = JObj [(js "username", JStr ADMIN_USER)].
Proof.
  cbv zeta.
  refine (proj2 (session_written_by_login_only
                   (seed (js "0.k3v9q0a1m") (js "0.zx81c5p0q") fresh) _ _)
                _ RDashboard _).
  - eapply steps_step; [apply step_login|].
    eapply steps_step; [apply step_generarQR|].
    apply steps_refl.
  - reflexivity.
  - vm_compute. discriminate.
Defined.
